(** * EchoNote: soft-delete repository, context builder and chat transcript

A shallow embedding of the state handling of the EchoNote application
(the [App] component, its [ChatInterface] and the chat service), and the
properties of its note collections, its global assistant context and its
streamed chat transcript.

Conventions.
- A JavaScript string is a [string]: a sequence of code units, here the
  ones below 256.
- A [Date] time value is a [Z], the milliseconds since the epoch; the
  number NaN of an invalid date is [None].
- A React state setter call is a [Call]; a handler is the list of calls it
  makes, and [commit] applies them to the state, in order. *)

From Stdlib Require Import List String Ascii ZArith Bool Lia.
From Stdlib Require Import Permutation Sorted.
Import ListNotations.

Set Implicit Arguments.

Local Open Scope string_scope.
Local Open Scope Z_scope.

(* ================================================================== *)
(** * The JavaScript built-ins the program calls *)

Module JS.

(** The double quote character and the line feed, for template literals. *)
Definition dq : string := String (ascii_of_nat 34) EmptyString.
Definition nl : string := String (ascii_of_nat 10) EmptyString.

(** [Array.prototype.join]. *)
Fixpoint join (sep : string) (l : list string) : string :=
  match l with
  | [] => ""
  | [x] => x
  | x :: rest => x ++ sep ++ join sep rest
  end.

(** Truthiness of a [string | null] value: [null] and the empty string are
    falsy. *)
Definition truthy (v : option string) : bool :=
  match v with
  | None => false
  | Some s => negb (s =? "")%string
  end.

(** White space and line terminators below code unit 256, the characters
    [String.prototype.trim] strips. *)
Definition isWhiteSpace (c : ascii) : bool :=
  let n := nat_of_ascii c in
  ((9 <=? n) && (n <=? 13))%nat || (n =? 32)%nat || (n =? 160)%nat.

Fixpoint trimStart (s : string) : string :=
  match s with
  | EmptyString => EmptyString
  | String c rest => if isWhiteSpace c then trimStart rest else s
  end.

Fixpoint trimEnd (s : string) : string :=
  match s with
  | EmptyString => EmptyString
  | String c rest =>
      match trimEnd rest with
      | EmptyString => if isWhiteSpace c then EmptyString else String c EmptyString
      | r => String c r
      end
  end.

Definition trim (s : string) : string := trimEnd (trimStart s).

(** ** Numbers: an integer or NaN *)

Definition number := option Z.

(** [a - b]; NaN when an operand is. *)
Definition sub (a b : number) : number :=
  match a, b with
  | Some x, Some y => Some (x - y)
  | _, _ => None
  end.

(** ** [Array.prototype.sort] with a comparator

[SortCompare] reads the comparator's result and takes NaN for +0. The
sort is stable: [x] moves behind [y] only when [comparefn x y > 0]. *)

Section Sort.
Variable A : Type.
Variable comparefn : A -> A -> number.

Definition SortCompare (x y : A) : Z :=
  match comparefn x y with
  | None => 0
  | Some v => v
  end.

Fixpoint insert (x : A) (l : list A) : list A :=
  match l with
  | [] => [x]
  | y :: rest =>
      if SortCompare x y <=? 0 then x :: l else y :: insert x rest
  end.

Definition sort (l : list A) : list A := fold_right insert [] l.
End Sort.

End JS.

(* ================================================================== *)
(** * Date: the part of the platform the notes rely on *)

(** [new Date(s).getTime()] and [new Date(t).toISOString()]. *)
Class DateAPI := {
  getTime : string -> JS.number;
  toISOString : Z -> string
}.

(** A reference implementation, for the date-time form that [toISOString]
    writes: [YYYY-MM-DDTHH:mm:ss.sssZ], or with a sign and six year digits
    outside the years 0 to 9999. *)
Module ISODate.

Definition msPerDay : Z := 86400000.
Definition maxTime : Z := 8640000000000000.

(** Civil date of a day number (days since 1970-01-01). *)
Definition civil_from_days (z : Z) : Z * Z * Z :=
  let z := z + 719468 in
  let era := z / 146097 in
  let doe := z - era * 146097 in
  let yoe := (doe - doe / 1460 + doe / 36524 - doe / 146096) / 365 in
  let doy := doe - (365 * yoe + yoe / 4 - yoe / 100) in
  let mp := (5 * doy + 2) / 153 in
  let d := doy - (153 * mp + 2) / 5 + 1 in
  let m := if mp <? 10 then mp + 3 else mp - 9 in
  let y := yoe + era * 400 + (if m <=? 2 then 1 else 0) in
  (y, m, d).

Definition days_from_civil (y m d : Z) : Z :=
  let y := y - (if m <=? 2 then 1 else 0) in
  let era := y / 400 in
  let yoe := y - era * 400 in
  let doy := (153 * (if 2 <? m then m - 3 else m + 9) + 2) / 5 + d - 1 in
  let doe := yoe * 365 + yoe / 4 - yoe / 100 + doy in
  era * 146097 + doe - 719468.

Definition digitChar (d : Z) : ascii := ascii_of_N (Z.to_N (48 + d)).

(** [n] in decimal, on [w] digits. *)
Fixpoint pad (w : nat) (n : Z) : string :=
  match w with
  | O => ""
  | S w' => pad w' (n / 10) ++ String (digitChar (n mod 10)) ""
  end.

Definition formatYear (y : Z) : string :=
  if (0 <=? y) && (y <=? 9999) then pad 4 y
  else if y <? 0 then "-" ++ pad 6 (- y)
  else "+" ++ pad 6 y.

Definition format (t : Z) : string :=
  let days := t / msPerDay in
  let ms := t mod msPerDay in
  let '(y, m, d) := civil_from_days days in
  formatYear y ++ "-" ++ pad 2 m ++ "-" ++ pad 2 d ++ "T"
    ++ pad 2 (ms / 3600000) ++ ":" ++ pad 2 ((ms / 60000) mod 60) ++ ":"
    ++ pad 2 ((ms / 1000) mod 60) ++ "." ++ pad 3 (ms mod 1000) ++ "Z".

Definition digitValue (c : ascii) : option Z :=
  let n := Z.of_nat (nat_of_ascii c) in
  if (48 <=? n) && (n <=? 57) then Some (n - 48) else None.

(** Reads exactly [w] decimal digits. *)
Fixpoint digits (w : nat) (acc : Z) (s : string) : option (Z * string) :=
  match w with
  | O => Some (acc, s)
  | S w' =>
      match s with
      | String c rest =>
          match digitValue c with
          | Some d => digits w' (10 * acc + d) rest
          | None => None
          end
      | EmptyString => None
      end
  end.

Definition expect (c : ascii) (s : string) : option string :=
  match s with
  | String c' rest => if Ascii.eqb c c' then Some rest else None
  | EmptyString => None
  end.

Definition isLeap (y : Z) : bool :=
  ((y mod 4 =? 0) && negb (y mod 100 =? 0)) || (y mod 400 =? 0).

Definition daysInMonth (y m : Z) : Z :=
  if m =? 2 then (if isLeap y then 29 else 28)
  else if (m =? 4) || (m =? 6) || (m =? 9) || (m =? 11) then 30
  else 31.

Definition bind {A B} (o : option A) (f : A -> option B) : option B :=
  match o with
  | Some a => f a
  | None => None
  end.

Notation "x <- e ;; k" := (bind e (fun x => k))
  (at level 61, e at next level, right associativity).
Notation "' p <- e ;; k" := (bind e (fun p => k))
  (at level 61, p pattern, e at next level, right associativity).

Definition parseYear (s : string) : option (Z * string) :=
  match s with
  | String "+" rest => digits 6 0 rest
  | String "-" rest =>
      '(y, rest') <- digits 6 0 rest ;;
      if y =? 0 then None else Some (- y, rest')
  | _ => digits 4 0 s
  end.

Definition parse (s : string) : JS.number :=
  '(y, s) <- parseYear s ;;
  s <- expect "-" s ;;
  '(m, s) <- digits 2 0 s ;;
  s <- expect "-" s ;;
  '(d, s) <- digits 2 0 s ;;
  s <- expect "T" s ;;
  '(hh, s) <- digits 2 0 s ;;
  s <- expect ":" s ;;
  '(mm, s) <- digits 2 0 s ;;
  s <- expect ":" s ;;
  '(ss, s) <- digits 2 0 s ;;
  s <- expect "." s ;;
  '(sss, s) <- digits 3 0 s ;;
  s <- expect "Z" s ;;
  match s with
  | EmptyString =>
      let inRange :=
        (1 <=? m) && (m <=? 12) && (1 <=? d) && (d <=? daysInMonth y m)
        && (hh <=? 24) && (mm <=? 59) && (ss <=? 59)
        && ((hh <? 24) || ((mm =? 0) && (ss =? 0) && (sss =? 0))) in
      let t := days_from_civil y m d * msPerDay
               + hh * 3600000 + mm * 60000 + ss * 1000 + sss in
      if inRange && (Z.abs t <=? maxTime) then Some t else None
  | _ => None
  end.

End ISODate.

#[export] Instance isoDate : DateAPI := {
  getTime := ISODate.parse;
  toISOString := ISODate.format
}.

(* ================================================================== *)
(** * Data model (types.ts) *)

Record TranscriptionSegment := {
  speaker : string;
  text : string
}.

Record SummaryProject := {
  id : string;
  title : string;
  titleEmoji : string;
  summary : string;
  transcription : list TranscriptionSegment;
  audioUrl : string;
  audioMimeType : string;
  audioBase64 : string;
  createdAt : string
}.

Inductive MainView := SUMMARIES | CHAT | RECYCLE_BIN.

Definition MainView_eqb (a b : MainView) : bool :=
  match a, b with
  | SUMMARIES, SUMMARIES | CHAT, CHAT | RECYCLE_BIN, RECYCLE_BIN => true
  | _, _ => false
  end.

(** What [generateSummaryFromAudio] resolves to. *)
Record SummaryResult := {
  res_title : string;
  res_summary : string;
  res_transcription : list TranscriptionSegment;
  res_titleEmoji : string
}.

(** The outcome of an awaited promise. *)
Inductive Settled (A : Type) :=
| Resolved (v : A)
| Rejected (error : string).
Arguments Rejected {A} error.

(* ================================================================== *)
(** * The App component: state, setter calls and handlers *)

Module App.

(** The [useState] cells of [App] that the note handlers read or write. *)
Record State := {
  mainView : MainView;
  projects : list SummaryProject;
  deletedProjects : list SummaryProject;
  activeProject : option SummaryProject;
  isModalOpen : bool;
  isLoading : option string
}.

(** The initial values of the [useState] calls. *)
Definition initial : State := {|
  mainView := SUMMARIES;
  projects := [];
  deletedProjects := [];
  activeProject := None;
  isModalOpen := false;
  isLoading := None
|}.

(** The argument of a state setter: a value, or a function of the state
    the setter finds. *)
Inductive SetStateAction (A : Type) :=
| Value (v : A)
| Updater (f : A -> A).

Definition next {A} (a : SetStateAction A) (prev : A) : A :=
  match a with
  | Value v => v
  | Updater f => f prev
  end.

(** What a handler does, in order: setter calls and what it tells its
    caller or the user. A handler returns nothing, so the list is all a
    caller can observe of it. *)
Inductive Call :=
| setMainView (v : MainView)
| setProjects (a : SetStateAction (list SummaryProject))
| setDeletedProjects (a : SetStateAction (list SummaryProject))
| setActiveProject (v : option SummaryProject)
| setIsModalOpen (v : bool)
| setIsLoading (v : option string)
| console_error (message : string)
| alert (message : string).

Definition apply (st : State) (c : Call) : State :=
  match c with
  | setMainView v =>
      {| mainView := v; projects := projects st;
         deletedProjects := deletedProjects st;
         activeProject := activeProject st;
         isModalOpen := isModalOpen st; isLoading := isLoading st |}
  | setProjects a =>
      {| mainView := mainView st; projects := next a (projects st);
         deletedProjects := deletedProjects st;
         activeProject := activeProject st;
         isModalOpen := isModalOpen st; isLoading := isLoading st |}
  | setDeletedProjects a =>
      {| mainView := mainView st; projects := projects st;
         deletedProjects := next a (deletedProjects st);
         activeProject := activeProject st;
         isModalOpen := isModalOpen st; isLoading := isLoading st |}
  | setActiveProject v =>
      {| mainView := mainView st; projects := projects st;
         deletedProjects := deletedProjects st;
         activeProject := v;
         isModalOpen := isModalOpen st; isLoading := isLoading st |}
  | setIsModalOpen v =>
      {| mainView := mainView st; projects := projects st;
         deletedProjects := deletedProjects st;
         activeProject := activeProject st;
         isModalOpen := v; isLoading := isLoading st |}
  | setIsLoading v =>
      {| mainView := mainView st; projects := projects st;
         deletedProjects := deletedProjects st;
         activeProject := activeProject st;
         isModalOpen := isModalOpen st; isLoading := v |}
  | console_error _ | alert _ => st
  end.

(** The state after the calls of one handler run. *)
Definition commit (calls : list Call) (st : State) : State :=
  fold_left apply calls st.

(** What reaches the caller or the user: the console and alert calls. *)
Definition isSignal (c : Call) : bool :=
  match c with
  | console_error _ | alert _ => true
  | _ => false
  end.

(** The handler told its caller or the user something. *)
Definition signalled (calls : list Call) : bool := existsb isSignal calls.

(** Whether a setter of a note collection is called: the two collections
    are the dependencies of the effect that rebuilds the global chat. *)
Definition touchesNotes (c : Call) : bool :=
  match c with
  | setProjects _ | setDeletedProjects _ => true
  | _ => false
  end.

(** All the fields of a note: identifier, title, emoji, summary,
    transcript, audio payload and its handle, creation time. *)
Definition sameFields (p q : SummaryProject) : Prop :=
  id p = id q /\ title p = title q /\ titleEmoji p = titleEmoji q
  /\ summary p = summary q /\ transcription p = transcription q
  /\ audioUrl p = audioUrl q /\ audioMimeType p = audioMimeType q
  /\ audioBase64 p = audioBase64 q /\ createdAt p = createdAt q.

Section Handlers.
Context `{DateAPI}.

(** [(a, b) => new Date(b.createdAt).getTime()
               - new Date(a.createdAt).getTime()] *)
Definition byCreatedAtDesc (a b : SummaryProject) : JS.number :=
  JS.sub (getTime (createdAt b)) (getTime (createdAt a)).

(** [p => p.id === id] and [p => p.id !== id]. *)
Definition hasId (i : string) (p : SummaryProject) : bool :=
  (id p =? i)%string.
Definition hasNotId (i : string) (p : SummaryProject) : bool :=
  negb (id p =? i)%string.

(** The object literal of [processAudio]. The clock is read twice, for
    [id] and for [createdAt]; [blobUrl] is what [URL.createObjectURL]
    returned. *)
Definition newProject (base64 mimeType blobUrl : string)
    (r : SummaryResult) (now_id now_createdAt : Z) : SummaryProject := {|
  id := toISOString now_id;
  title := res_title r;
  summary := res_summary r;
  transcription := res_transcription r;
  titleEmoji := res_titleEmoji r;
  audioUrl := blobUrl;
  audioMimeType := mimeType;
  audioBase64 := base64;
  createdAt := toISOString now_createdAt
|}.

(** [processAudio], given how the awaited [generateSummaryFromAudio]
    settles and the two clock readings that follow it. *)
Definition processAudio (base64 mimeType blobUrl : string)
    (remote : Settled SummaryResult) (now_id now_createdAt : Z)
    : list Call :=
  setIsLoading (Some "Transcribing and summarizing...")
  :: (match remote with
     | Resolved r =>
         let p := newProject base64 mimeType blobUrl r now_id now_createdAt in
         [ setProjects
             (Updater (fun prev => JS.sort byCreatedAtDesc (p :: prev)));
           setActiveProject (Some p) ]
     | Rejected _ =>
         [ console_error "Error processing audio:";
           alert "Failed to process audio. Please try again." ]
      end
      ++ [ setIsLoading None; setIsModalOpen false ])%list.

(** [deleteProject]; [render] is the state the handler closes over. *)
Definition deleteProject (render : State) (i : string) : list Call :=
  match find (hasId i) (projects render) with
  | Some projectToDelete =>
      [ setProjects (Value (filter (hasNotId i) (projects render)));
        setDeletedProjects (Updater (fun prev => projectToDelete :: prev)) ]
  | None => []
  end.

Definition restoreProject (render : State) (i : string) : list Call :=
  match find (hasId i) (deletedProjects render) with
  | Some projectToRestore =>
      [ setDeletedProjects
          (Value (filter (hasNotId i) (deletedProjects render)));
        setProjects
          (Updater (fun prev =>
             JS.sort byCreatedAtDesc (prev ++ [projectToRestore]))) ]
  | None => []
  end.

Definition permanentlyDeleteProject (render : State) (i : string)
    : list Call :=
  [ setDeletedProjects
      (Value (filter (hasNotId i) (deletedProjects render))) ].

(** ** The operations of the note repository

    Each one is a handler run on the state it was rendered with, its
    calls committed before the next operation starts. *)
Inductive Op :=
| create (base64 mimeType blobUrl : string) (remote : Settled SummaryResult)
         (now_id now_createdAt : Z)
| softDelete (i : string)
| restore (i : string)
| purge (i : string).

Definition handler (op : Op) (render : State) : list Call :=
  match op with
  | create base64 mimeType blobUrl remote now_id now_createdAt =>
      processAudio base64 mimeType blobUrl remote now_id now_createdAt
  | softDelete i => deleteProject render i
  | restore i => restoreProject render i
  | purge i => permanentlyDeleteProject render i
  end.

Definition step (st : State) (op : Op) : State :=
  commit (handler op st) st.

Definition run (ops : list Op) (st : State) : State :=
  fold_left step ops st.

(** The ids of the active and of the trashed notes. *)
Definition ids (st : State) : list string :=
  map id (projects st) ++ map id (deletedProjects st).

(** An id is in at most one collection, at most once. *)
Definition exclusive (st : State) : Prop := NoDup (ids st).

Definition mem (i : string) (l : list string) : bool :=
  existsb (String.eqb i) l.

(** Every note that the operations create gets an id that neither
    collection holds at that moment. *)
Fixpoint freshIds (ops : list Op) (st : State) : bool :=
  match ops with
  | [] => true
  | op :: rest =>
      match op with
      | create _ _ _ (Resolved _) now_id _ =>
          negb (mem (toISOString now_id) (ids st))
      | _ => true
      end
      && freshIds rest (step st op)
  end.

(** The time value of a note's [createdAt]. *)
Definition createdTime (p : SummaryProject) : JS.number :=
  getTime (createdAt p).

(** [a] may stand before [b] in a list ordered by [createdAt]
    descending; both dates are valid. *)
Definition notOlder (a b : SummaryProject) : Prop :=
  match createdTime a, createdTime b with
  | Some ta, Some tb => tb <= ta
  | _, _ => False
  end.

Definition validDate (p : SummaryProject) : Prop :=
  createdTime p <> None.

Definition validDateb (p : SummaryProject) : bool :=
  match createdTime p with
  | Some _ => true
  | None => false
  end.

Definition sortedByCreatedAtDesc (l : list SummaryProject) : Prop :=
  StronglySorted notOlder l.

End Handlers.

End App.

(* ================================================================== *)
(** * Loading the collections from local storage *)

Module Storage.

(** [localStorage.getItem]: the text under a key, [None] for [null]. *)
Definition Store := string -> option string.

Definition projectsKey : string := "echo-note-projects".
Definition deletedProjectsKey : string := "echo-note-deleted-projects".

(** A statement sequence that makes calls and may throw: the calls made,
    then the value or the error thrown. *)
Inductive Completion (A : Type) :=
| Normal (v : A)
| Throw (error : string).
Arguments Throw {A} error.

Definition Cmd (A : Type) : Type := list App.Call * Completion A.

Definition ret {A} (v : A) : Cmd A := ([], Normal v).

Definition bind {A B} (c : Cmd A) (k : A -> Cmd B) : Cmd B :=
  match c with
  | (calls, Normal v) => let '(calls', r) := k v in ((calls ++ calls')%list, r)
  | (calls, Throw e) => (calls, Throw e)
  end.

Definition call (c : App.Call) : Cmd unit := ([c], Normal tt).

Definition tryCatch (body : Cmd unit) (handler : string -> Cmd unit)
    : Cmd unit :=
  match body with
  | (calls, Normal v) => (calls, Normal v)
  | (calls, Throw e) => let '(calls', r) := handler e in ((calls ++ calls')%list, r)
  end.

(** [if (stored) { ... }]: the body runs on a stored text that is neither
    [null] nor empty. *)
Definition ifStored (stored : option string) (body : string -> Cmd unit)
    : Cmd unit :=
  match stored with
  | Some text => if JS.truthy stored then body text else ret tt
  | None => ret tt
  end.

Notation "x <- c ;; k" := (bind c (fun x => k))
  (at level 61, c at next level, right associativity).
Notation "c ;; k" := (bind c (fun _ => k))
  (at level 61, right associativity).

Section Load.

(** [JSON.parse] on a stored text that is the JSON of an array of notes or
    is no JSON: the array, read at the type the state cells are declared
    with, and [None] when it throws a SyntaxError. A text that is the JSON
    of another value (null, a number, an array of other things) has no
    reading here: the source sets such a value as it is, unchecked, and
    the render that follows works on whatever the cell then holds. *)
Variable JSON_parse : string -> option (list SummaryProject).

Definition parse (text : string) : Cmd (list SummaryProject) :=
  match JSON_parse text with
  | Some v => ret v
  | None => ([], Throw "SyntaxError")
  end.

(** The effect that runs once, on the initial render. *)
Definition loadEffect (localStorage : Store) : Cmd unit :=
  tryCatch
    (let storedProjects := localStorage projectsKey in
     let storedDeletedProjects := localStorage deletedProjectsKey in
     ifStored storedProjects
       (fun text => v <- parse text ;; call (App.setProjects (App.Value v))) ;;
     ifStored storedDeletedProjects
       (fun text =>
          v <- parse text ;; call (App.setDeletedProjects (App.Value v))))
    (fun error =>
       call (App.console_error "Failed to load projects from local storage")).

(** The state the first render is followed by. *)
Definition loaded (localStorage : Store) : App.State :=
  App.commit (fst (loadEffect localStorage)) App.initial.

(** The stored text of a collection is missing (absent or empty) or
    cannot be parsed. *)
Definition missing (stored : option string) : Prop :=
  JS.truthy stored = false.

Definition corrupt (stored : option string) : Prop :=
  exists text, stored = Some text /\ JSON_parse text = None.

End Load.

End Storage.

(* ================================================================== *)
(** * The context builder (services/geminiService) *)

Module GeminiService.

Import JS.

(** The configuration a chat session is created with. *)
Record ChatConfig := {
  model : string;
  systemInstruction : string
}.

Definition activeLine (p : SummaryProject) : string :=
  "- Title: " ++ dq ++ title p ++ dq ++ " (Summary: " ++ summary p ++ ")".

Definition deletedLine (p : SummaryProject) : string :=
  "- Title: " ++ dq ++ title p ++ dq.

Definition activeProjectsContext (projects : list SummaryProject) : string :=
  if (0 <? List.length projects)%nat
  then "Here are the user's current summaries:" ++ nl
       ++ join nl (map activeLine projects)
  else "The user currently has no active summaries.".

Definition deletedProjectsContext (deletedProjects : list SummaryProject)
    : string :=
  if (0 <? List.length deletedProjects)%nat
  then "Here are the items in the user's recycle bin:" ++ nl
       ++ join nl (map deletedLine deletedProjects)
  else "The user's recycle bin is empty.".

(** The template literal of [createGlobalChat], line by line. *)
Definition buildGlobalContext (projects deletedProjects : list SummaryProject)
    : string :=
  "You are the built-in AI assistant for the " ++ dq ++ "EchoNote Summarizer"
    ++ dq ++ " application." ++ nl
  ++ "Your ONLY purpose is to help users with their notes and the app's features."
    ++ nl
  ++ "You are strictly forbidden from answering any general knowledge questions or engaging in conversations unrelated to the user's summaries or the app itself."
    ++ nl
  ++ "If the user asks a question outside of your scope (e.g., " ++ dq
    ++ "What is the capital of France?" ++ dq ++ ", " ++ dq ++ "Tell me a joke"
    ++ dq
    ++ "), you MUST politely decline and remind them of your purpose. For example, say: "
    ++ dq
    ++ "I can only answer questions about your notes and summaries within the EchoNote app. How can I help you with your recordings?"
    ++ dq ++ nl
  ++ nl
  ++ "You have access to the following information about the user's data:"
    ++ nl
  ++ nl
  ++ "1.  **Active Summaries**:" ++ nl
  ++ activeProjectsContext projects ++ nl
  ++ nl
  ++ "2.  **Recycle Bin**:" ++ nl
  ++ deletedProjectsContext deletedProjects ++ nl
  ++ nl
  ++ "Use this information to answer questions about their notes. You can count items, search for keywords in titles and summaries, and compare notes.".

(** [createGlobalChat]: what [ai.chats.create] is called with. *)
Definition createGlobalChat (projects deletedProjects : list SummaryProject)
    : ChatConfig := {|
  model := "gemini-2.5-flash";
  systemInstruction := buildGlobalContext projects deletedProjects
|}.

(** What the remote stream of one reply delivers: its text fragments, in
    order, and the error it ends with, if any. *)
Record ReplyStream := {
  chunks : list string;
  failure : option string
}.

(** [sendChatMessageStream]: [onChunk] is called on every fragment, in
    order; the calls they make, and the error the iteration throws. *)
Definition sendChatMessageStream {C : Type} (stream : ReplyStream)
    (onChunk : string -> list C) : list C * option string :=
  (flat_map onChunk (chunks stream), failure stream).

End GeminiService.

(* ================================================================== *)
(** * The ChatInterface component *)

Module ChatInterface.

Inductive Role := user | model.

Record ChatMessage := {
  role : Role;
  text : string
}.

Record State := {
  messages : list ChatMessage;
  input : string;
  isThinking : bool
}.

Definition initial : State := {|
  messages := [];
  input := "";
  isThinking := false
|}.

(** The setter calls of the component; [setMessages] is always given a
    function of the previous transcript. *)
Inductive Call :=
| setMessages (f : list ChatMessage -> list ChatMessage)
| setInput (v : string)
| setIsThinking (v : bool)
| console_error (message : string).

Definition apply (st : State) (c : Call) : State :=
  match c with
  | setMessages f =>
      {| messages := f (messages st); input := input st;
         isThinking := isThinking st |}
  | setInput v =>
      {| messages := messages st; input := v; isThinking := isThinking st |}
  | setIsThinking v =>
      {| messages := messages st; input := input st; isThinking := v |}
  | console_error _ => st
  end.

Definition commit (calls : list Call) (st : State) : State :=
  fold_left apply calls st.

(** [prev[prev.length - 1]]: undefined on the empty transcript. *)
Definition lastMessage (prev : list ChatMessage) : option ChatMessage :=
  nth_error prev (List.length prev - 1)%nat.

(** The updater of the chunk callback. The last message is changed in
    place ([lastMessage.text += chunk]) and put back at the end of a copy;
    each updater runs once, on the transcript the previous one left. *)
Definition appendChunk (chunk : string) (prev : list ChatMessage)
    : list ChatMessage :=
  match lastMessage prev with
  | Some last =>
      match role last with
      | model =>
          (removelast prev
             ++ [ {| role := role last; text := text last ++ chunk |} ])%list
      | user => prev
      end
  | None => prev
  end.

(** The updater of the catch block. *)
Definition apologise (prev : list ChatMessage) : list ChatMessage :=
  match lastMessage prev with
  | Some last =>
      match role last with
      | model =>
          (removelast prev
             ++ [ {| role := role last;
                     text := "Sorry, something went wrong." |} ])%list
      | user => prev
      end
  | None => prev
  end.

(** [!input.trim() || !chatRef.current || isThinking]: the send returns
    at once. *)
Definition blocked {Chat : Type} (chatRef : option Chat) (render : State)
    : bool :=
  negb (JS.truthy (Some (JS.trim (input render))))
  || match chatRef with Some _ => false | None => true end
  || isThinking render.

(** [handleSend] up to its [await]. *)
Definition handleSend_start (render : State) : list Call :=
  let userMessage := {| role := user; text := input render |} in
  let modelResponse := {| role := model; text := "" |} in
  [ setMessages (fun prev => (prev ++ [userMessage])%list);
    setInput "";
    setIsThinking true;
    setMessages (fun prev => (prev ++ [modelResponse])%list) ].

(** The callback given to [sendChatMessageStream]. *)
Definition onChunk (chunk : string) : list Call :=
  [ setMessages (appendChunk chunk) ].

Definition handleSend_catch : list Call :=
  [ console_error "Chat error:"; setMessages apologise ].

Definition handleSend_finally : list Call :=
  [ setIsThinking false ].

(** A whole exchange: [handleSend] with the reply stream its message gets. *)
Definition handleSend {Chat : Type} (chatRef : option Chat) (render : State)
    (stream : GeminiService.ReplyStream) : list Call :=
  if blocked chatRef render then []
  else
    let '(delivered, error) :=
      GeminiService.sendChatMessageStream stream onChunk in
    (handleSend_start render
       ++ delivered
       ++ match error with
          | Some _ => handleSend_catch
          | None => []
          end
       ++ handleSend_finally)%list.

End ChatInterface.

(* ================================================================== *)
(** * The running page: App, the global chat session and its ChatInterface *)

Module Page.

(** A chat session: the object [ai.chats.create] returns. *)
Record Chat := {
  chatId : nat;
  config : GeminiService.ChatConfig
}.

(** A reply stream that is still delivering: the ChatInterface instance
    whose [setMessages] its callback holds, and the session it was sent
    on ([chatRef.current] at the time of the send). *)
Record Stream := {
  target : nat;
  session : Chat
}.

(** The ChatInterface of the CHAT view is mounted while that view is
    shown; its state lives and dies with the instance. The ChatInterface
    of a note's detail view is another component instance, with a session
    and a transcript of its own; its events change the state of that
    instance only, and it is left out. *)
Record World := {
  app : App.State;
  generalChatRef : option Chat;
  nextChat : nat;
  chatUI : option (nat * ChatInterface.State);
  nextInstance : nat;
  streams : list Stream
}.

Definition withApp (st : App.State) (w : World) : World :=
  {| app := st; generalChatRef := generalChatRef w; nextChat := nextChat w;
     chatUI := chatUI w; nextInstance := nextInstance w;
     streams := streams w |}.

Definition withChatUI (ui : option (nat * ChatInterface.State)) (w : World)
    : World :=
  {| app := app w; generalChatRef := generalChatRef w; nextChat := nextChat w;
     chatUI := ui; nextInstance := nextInstance w; streams := streams w |}.

Definition withStreams (l : list Stream) (w : World) : World :=
  {| app := app w; generalChatRef := generalChatRef w; nextChat := nextChat w;
     chatUI := chatUI w; nextInstance := nextInstance w; streams := l |}.

(** [renderMainContent] returns the global ChatInterface exactly when no
    note is open and the CHAT view is selected. *)
Definition chatShown (st : App.State) : bool :=
  match App.activeProject st with
  | Some _ => false
  | None => MainView_eqb (App.mainView st) CHAT
  end.

(** The header, with the view selector, is rendered when no note is open. *)
Definition headerShown (st : App.State) : bool :=
  match App.activeProject st with
  | Some _ => false
  | None => true
  end.

Definition listShown (v : MainView) (st : App.State) : bool :=
  headerShown st && MainView_eqb (App.mainView st) v.

(** The render after a state change mounts a fresh ChatInterface, keeps
    the mounted one, or unmounts it. *)
Definition render (w : World) : World :=
  if chatShown (app w) then
    match chatUI w with
    | Some _ => w
    | None =>
        {| app := app w; generalChatRef := generalChatRef w;
           nextChat := nextChat w;
           chatUI := Some (nextInstance w, ChatInterface.initial);
           nextInstance := S (nextInstance w); streams := streams w |}
    end
  else withChatUI None w.

(** [generalChatRef.current = createGlobalChat(projects, deletedProjects)] *)
Definition rebuildEffect (w : World) : World :=
  {| app := app w;
     generalChatRef :=
       Some {| chatId := nextChat w;
               config := GeminiService.createGlobalChat
                           (App.projects (app w))
                           (App.deletedProjects (app w)) |};
     nextChat := S (nextChat w);
     chatUI := chatUI w; nextInstance := nextInstance w;
     streams := streams w |}.

(** The calls of an App handler are committed, the page is rendered, and
    the rebuild effect runs when a note collection was set (every setter
    call of the handlers passes a new array). *)
Definition dispatch (calls : list App.Call) (w : World) : World :=
  let w' := render (withApp (App.commit calls (app w)) w) in
  if existsb App.touchesNotes calls then rebuildEffect w' else w'.

(** Setter calls that a callback of instance [inst] makes reach the state
    of that instance while it is mounted, and nothing otherwise. *)
Definition dispatchUI (inst : nat) (calls : list ChatInterface.Call)
    (w : World) : World :=
  match chatUI w with
  | Some (mounted, ui) =>
      if (mounted =? inst)%nat
      then withChatUI (Some (mounted, ChatInterface.commit calls ui)) w
      else w
  | None => w
  end.

Fixpoint removeNth {A : Type} (n : nat) (l : list A) : list A :=
  match n, l with
  | _, [] => []
  | O, _ :: rest => rest
  | S n', x :: rest => x :: removeNth n' rest
  end.

Inductive Event :=
| selectView (v : MainView)
| openProject (card : nat)
| back
| audioProcessed (base64 mimeType blobUrl : string)
    (remote : Settled SummaryResult) (now_id now_createdAt : Z)
| clickDelete (i : string)
| clickRestore (i : string)
| clickPurge (i : string)
| typeInput (v : string)
| send
| chunkArrives (n : nat) (chunk : string)
| streamEnds (n : nat) (error : option string).

Section Steps.
Context `{DateAPI}.
Variable JSON_parse : string -> option (list SummaryProject).

Definition listed (i : string) (l : list SummaryProject) : bool :=
  existsb (App.hasId i) l.

(** One event of the page; [None] when the page offers no such event
    (the control is not rendered, or no such stream is open). *)
Definition step (w : World) (e : Event) : option World :=
  let st := app w in
  match e with
  | selectView v =>
      if headerShown st then Some (dispatch [App.setMainView v] w) else None
  | openProject card =>
      match nth_error (App.projects st) card with
      | Some p =>
          if listShown SUMMARIES st
          then Some (dispatch [App.setActiveProject (Some p)] w) else None
      | None => None
      end
  | back =>
      if headerShown st then None
      else Some (dispatch [App.setActiveProject None] w)
  | audioProcessed base64 mimeType blobUrl remote now_id now_createdAt =>
      Some (dispatch
              (App.processAudio base64 mimeType blobUrl remote
                 now_id now_createdAt) w)
  | clickDelete i =>
      if listShown SUMMARIES st && listed i (App.projects st)
      then Some (dispatch (App.deleteProject st i) w) else None
  | clickRestore i =>
      if listShown RECYCLE_BIN st && listed i (App.deletedProjects st)
      then Some (dispatch (App.restoreProject st i) w) else None
  | clickPurge i =>
      if listShown RECYCLE_BIN st && listed i (App.deletedProjects st)
      then Some (dispatch (App.permanentlyDeleteProject st i) w) else None
  | typeInput v =>
      match chatUI w with
      | Some (inst, ui) =>
          if ChatInterface.isThinking ui then None
          else Some (dispatchUI inst [ChatInterface.setInput v] w)
      | None => None
      end
  | send =>
      match chatUI w with
      | Some (inst, ui) =>
          match generalChatRef w with
          | Some chat =>
              if ChatInterface.blocked (generalChatRef w) ui then Some w
              else
                Some (withStreams
                        (streams w ++ [ {| target := inst; session := chat |} ])
                        (dispatchUI inst
                           (ChatInterface.handleSend_start ui) w))
          | None => Some w
          end
      | None => None
      end
  | chunkArrives n chunk =>
      match nth_error (streams w) n with
      | Some s => Some (dispatchUI (target s) (ChatInterface.onChunk chunk) w)
      | None => None
      end
  | streamEnds n error =>
      match nth_error (streams w) n with
      | Some s =>
          Some (withStreams (removeNth n (streams w))
                  (dispatchUI (target s)
                     (match error with
                      | Some _ => ChatInterface.handleSend_catch
                      | None => []
                      end ++ ChatInterface.handleSend_finally)%list w))
      | None => None
      end
  end.

Fixpoint run (events : list Event) (w : World) : option World :=
  match events with
  | [] => Some w
  | e :: rest =>
      match step w e with
      | Some w' => run rest w'
      | None => None
      end
  end.

(** The page after its first render and the effects of that render: the
    global chat is created for the empty collections, and again when
    the load effect set a collection. *)
Definition boot (localStorage : Storage.Store) : World :=
  dispatch (fst (Storage.loadEffect JSON_parse localStorage))
    (rebuildEffect
       {| app := App.initial; generalChatRef := None; nextChat := O;
          chatUI := None; nextInstance := O; streams := [] |}).

(** What the user sees in the CHAT view. *)
Definition transcript (w : World) : list ChatInterface.ChatMessage :=
  match chatUI w with
  | Some (_, ui) => ChatInterface.messages ui
  | None => []
  end.

(** The stream was sent on a session that the global context rebuild
    has replaced. *)
Definition superseded (w : World) (s : Stream) : Prop :=
  generalChatRef w <> Some (session s).

(** What holds of every page the events lead to: instances are numbered
    in the order of their mounting; the global ChatInterface is mounted
    exactly while the CHAT view is shown; and a stream whose callback
    belongs to the mounted instance was sent on the current session. *)
Definition consistent (w : World) : Prop :=
  Forall (fun s => (target s < nextInstance w)%nat) (streams w)
  /\ match chatUI w with
     | Some (inst, _) =>
         (inst < nextInstance w)%nat
         /\ chatShown (app w) = true
         /\ Forall (fun s => target s = inst
                             -> generalChatRef w = Some (session s))
              (streams w)
     | None => chatShown (app w) = false
     end.

End Steps.

End Page.

(* ================================================================== *)
(** * Sample data *)

Module Sample.

Definition standup : SummaryResult := {|
  res_title := "Standup";
  res_summary := "Daily sync of the team.";
  res_transcription :=
    [ {| speaker := "Speaker 1"; text := "Good morning." |};
      {| speaker := "Speaker 2"; text := "Morning, all." |} ];
  res_titleEmoji := ":)"
|}.

(** 2024-11-02T08:30:00.123Z and one minute later. *)
Definition t1 : Z := 1730536200123.
Definition t2 : Z := 1730536260123.

Definition id1 : string := "2024-11-02T08:30:00.123Z".
Definition id2 : string := "2024-11-02T08:31:00.123Z".

(** A recording is summarised, and the note built at clock reading [t]. *)
Definition createAt (t : Z) : App.Op :=
  App.create "GkXfo59ChoEB" "audio/webm" "blob:echonote/1" (Resolved standup)
    t t.

Definition note (t : Z) : SummaryProject :=
  App.newProject "GkXfo59ChoEB" "audio/webm" "blob:echonote/1" standup t t.

(** Two notes, the older one in the recycle bin. *)
Definition oneTrashed : App.State :=
  App.run [ createAt t1; createAt t2; App.softDelete id1 ] App.initial.

(** A [JSON.parse] that reads the text of the empty array and throws on
    every other text: enough for a store that holds an empty or a broken
    collection. *)
Definition parseEmptyArray (text : string) : option (list SummaryProject) :=
  if (text =? "[]")%string then Some [] else None.

(** Nothing stored yet, and a store whose active collection is cut off. *)
Definition emptyStore : Storage.Store := fun _ => None.

Definition brokenStore : Storage.Store :=
  fun key =>
    if (key =? Storage.projectsKey)%string then Some "[{" else None.

(** A question typed into an empty chat, and the reply it gets. *)
Definition asking : ChatInterface.State := {|
  ChatInterface.messages := [];
  ChatInterface.input := "Say hello";
  ChatInterface.isThinking := false
|}.

Definition reply : GeminiService.ReplyStream := {|
  GeminiService.chunks := [ "Hel"; "lo, "; "world" ];
  GeminiService.failure := None
|}.

(** The user asks in the CHAT view; while the reply streams, a recording
    that was being summarised becomes a note, which opens its detail view;
    the user comes back to the CHAT view. *)
Definition lateTrace : list Page.Event :=
  [ Page.selectView CHAT;
    Page.typeInput "What was decided?";
    Page.send;
    Page.chunkArrives 0 "You ";
    Page.audioProcessed "GkXfo59ChoEB" "audio/webm" "blob:echonote/1"
      (Resolved standup) t1 t1;
    Page.back ].

Definition started : Page.World := Page.boot parseEmptyArray emptyStore.

Definition rebuilt : Page.World :=
  match Page.run lateTrace started with
  | Some w => w
  | None => started
  end.

(** The stream of the question, sent on the first session. *)
Definition staleStream : Page.Stream := {|
  Page.target := 0;
  Page.session :=
    {| Page.chatId := 0; Page.config := GeminiService.createGlobalChat [] [] |}
|}.

End Sample.

(* ================================================================== *)
(** * Runs of the repository: checks on the operations and the lists *)

Module Runs.

Section Checks.
Context `{DateAPI}.

(** Every note that the operations create reads a clock whose text is a
    valid date again. *)
Definition validClocks (ops : list App.Op) : bool :=
  forallb
    (fun op =>
       match op with
       | App.create _ _ _ (Resolved _) _ now_createdAt =>
           match getTime (toISOString now_createdAt) with
           | Some _ => true
           | None => false
           end
       | _ => true
       end)
    ops.

(** [a] was created after [b]; both dates are valid. *)
Definition laterb (a b : SummaryProject) : bool :=
  match App.createdTime a, App.createdTime b with
  | Some ta, Some tb => tb <? ta
  | _, _ => false
  end.

(** The creation times of the list are valid and strictly descending. *)
Fixpoint newestFirstb (l : list SummaryProject) : bool :=
  match l with
  | [] => true
  | a :: rest =>
      App.validDateb a && forallb (laterb a) rest && newestFirstb rest
  end.

(** No two notes of the list have the same creation time. *)
Definition distinctTimes (l : list SummaryProject) : Prop :=
  NoDup (map App.createdTime l).

End Checks.

Fixpoint nodupb (l : list string) : bool :=
  match l with
  | [] => true
  | x :: rest => negb (App.mem x rest) && nodupb rest
  end.

End Runs.

(* ================================================================== *)
(** * What is checked of every page *)

Module PageInvariants.

Import Page.

(** The session the ref holds was created from the collections as they
    are now. *)
Definition contextCurrent (w : World) : Prop :=
  exists chat,
    generalChatRef w = Some chat
    /\ config chat
       = GeminiService.createGlobalChat (App.projects (app w))
           (App.deletedProjects (app w)).

(** The note of the detail view is one of the active notes. *)
Definition openListed (w : World) : Prop :=
  match App.activeProject (app w) with
  | Some p => In p (App.projects (app w))
  | None => True
  end.

(** The open streams whose callback belongs to instance [inst]. *)
Definition openFor (inst : nat) (l : list Stream) : list Stream :=
  filter (fun s => (target s =? inst)%nat) l.

(** The mounted ChatInterface thinks exactly while one stream of its own
    is open, and it never has two. *)
Definition oneStream (w : World) : Prop :=
  match chatUI w with
  | Some (inst, ui) =>
      List.length (openFor inst (streams w))
      = (if ChatInterface.isThinking ui then 1 else 0)%nat
  | None => True
  end.

End PageInvariants.

(* ================================================================== *)
(** * Writing to local storage: the theme and the two save effects *)

Module LocalStorage.

(** [localStorage.setItem] *)
Definition setItem (key value : string) (localStorage : Storage.Store)
    : Storage.Store :=
  fun k => if (k =? key)%string then Some value else localStorage k.

End LocalStorage.

Module Theme.

(** The three options of the ThemeSwitcher; the enum values are their names. *)
Inductive Theme := LIGHT | DARK | SYSTEM.

Definition name (t : Theme) : string :=
  match t with
  | LIGHT => "LIGHT"
  | DARK => "DARK"
  | SYSTEM => "SYSTEM"
  end.

Definition themeKey : string := "theme".

(** [(localStorage.getItem('theme') as Theme) || Theme.SYSTEM]: the cast
    checks nothing, so the state cell holds the stored text as it is. *)
Definition initialTheme (localStorage : Storage.Store) : string :=
  match localStorage themeKey with
  | Some stored => if JS.truthy (Some stored) then stored else name SYSTEM
  | None => name SYSTEM
  end.

(** The theme cell, what the system prefers
    ([matchMedia('(prefers-color-scheme: dark)').matches]), whether the
    root element has the class dark, the theme that the registered
    change listener closes over, and the storage. *)
Record Page := {
  theme : string;
  prefersDark : bool;
  dark : bool;
  listening : option string;
  storage : Storage.Store
}.

Definition isDark (theme : string) (prefersDark : bool) : bool :=
  (theme =? name DARK)%string
  || ((theme =? name SYSTEM)%string && prefersDark).

(** The effect on [theme]: toggles the class, stores the theme, registers
    the listener (the cleanup of the previous run has removed the old one). *)
Definition themeEffect (p : Page) : Page := {|
  theme := theme p;
  prefersDark := prefersDark p;
  dark := isDark (theme p) (prefersDark p);
  listening := Some (theme p);
  storage := LocalStorage.setItem themeKey (theme p) (storage p)
|}.

(** The first commit of a first render that completes (see [start]): the
    theme effect runs on the page as it was found. *)
Definition mount (localStorage : Storage.Store) (prefersDark darkBefore : bool)
    : Page :=
  themeEffect {|
    theme := initialTheme localStorage;
    prefersDark := prefersDark;
    dark := darkBefore;
    listening := None;
    storage := localStorage
  |}.

(** [themeOptions[theme]], the entry that the ThemeSwitcher has for the
    theme: there is one for each of the three names. *)
Definition themeOption (theme : string) : option Theme :=
  if (theme =? name LIGHT)%string then Some LIGHT
  else if (theme =? name DARK)%string then Some DARK
  else if (theme =? name SYSTEM)%string then Some SYSTEM
  else None.

(** The start of the application. The first render of the ThemeSwitcher
    reads [themeOptions[theme].icon] and renders it as a component. For a
    theme without an entry that throws: reading icon of undefined, or,
    when the text names a member that every object inherits, rendering
    undefined as a component. Nothing catches the error, so nothing is
    committed and no effect runs: the page stays as it was found. *)
Definition start (localStorage : Storage.Store) (prefersDark darkBefore : bool)
    : Storage.Completion Page :=
  match themeOption (initialTheme localStorage) with
  | Some _ => Storage.Normal (mount localStorage prefersDark darkBefore)
  | None => Storage.Throw "Error"
  end.

(** What happens to the application while it is mounted: the user picks
    an option of the ThemeSwitcher, or the system preference changes. *)
Inductive Event :=
| choose (t : Theme)
| systemPreference (prefersDark : bool).

(** [setTheme] with the theme that is set already renders nothing and
    runs no effect; [handleChange] acts in the SYSTEM theme only. *)
Definition step (p : Page) (e : Event) : Page :=
  match e with
  | choose t =>
      if (name t =? theme p)%string then p
      else themeEffect {|
             theme := name t; prefersDark := prefersDark p; dark := dark p;
             listening := None; storage := storage p |}
  | systemPreference prefers =>
      {| theme := theme p; prefersDark := prefers;
         dark := match listening p with
                 | Some captured =>
                     if (captured =? name SYSTEM)%string then prefers
                     else dark p
                 | None => dark p
                 end;
         listening := listening p; storage := storage p |}
  end.

Definition run (events : list Event) (p : Page) : Page :=
  fold_left step events p.

End Theme.

Module Persistence.

Definition setsProjects (c : App.Call) : bool :=
  match c with
  | App.setProjects _ => true
  | _ => false
  end.

Definition setsDeletedProjects (c : App.Call) : bool :=
  match c with
  | App.setDeletedProjects _ => true
  | _ => false
  end.

Section Codec.
Context `{DateAPI}.
Variable JSON_parse : string -> option (list SummaryProject).
Variable JSON_stringify : list SummaryProject -> string.

(** The two save effects after a commit: each runs when its collection
    was set (every setter call passes a new array). *)
Definition saveEffects (calls : list App.Call) (st : App.State)
    (localStorage : Storage.Store) : Storage.Store :=
  let afterProjects :=
    if existsb setsProjects calls
    then LocalStorage.setItem Storage.projectsKey
           (JSON_stringify (App.projects st)) localStorage
    else localStorage in
  if existsb setsDeletedProjects calls
  then LocalStorage.setItem Storage.deletedProjectsKey
         (JSON_stringify (App.deletedProjects st)) afterProjects
  else afterProjects.

(** The first render and its effects, in the order of their declaration:
    the load effect reads the store; the two save effects write the
    collections of that render, which are empty; then the collections
    that the load set are rendered and saved. (The theme effect, which
    runs before them, writes the key theme only.) *)
Definition mount (localStorage : Storage.Store) : App.State * Storage.Store :=
  let calls := fst (Storage.loadEffect JSON_parse localStorage) in
  let st := App.commit calls App.initial in
  let firstRender :=
    LocalStorage.setItem Storage.deletedProjectsKey (JSON_stringify [])
      (LocalStorage.setItem Storage.projectsKey (JSON_stringify [])
         localStorage) in
  (st, saveEffects calls st firstRender).

(** An operation of the repository, and the save effects behind it. *)
Definition step (s : App.State * Storage.Store) (op : App.Op)
    : App.State * Storage.Store :=
  let calls := App.handler op (fst s) in
  let st := App.commit calls (fst s) in
  (st, saveEffects calls st (snd s)).

Definition run (ops : list App.Op) (s : App.State * Storage.Store)
    : App.State * Storage.Store :=
  fold_left step ops s.

(** Each slot holds the text of the collection it belongs to. *)
Definition mirrors (s : App.State * Storage.Store) : Prop :=
  snd s Storage.projectsKey = Some (JSON_stringify (App.projects (fst s)))
  /\ snd s Storage.deletedProjectsKey
     = Some (JSON_stringify (App.deletedProjects (fst s))).

(** [JSON.parse] reads the text of the collection back, and the text is
    not empty. *)
Definition readsBack (l : list SummaryProject) : Prop :=
  JSON_parse (JSON_stringify l) = Some l
  /\ JS.truthy (Some (JSON_stringify l)) = true.

End Codec.

End Persistence.

(* ================================================================== *)
(** * From a file or a recording to a note *)

Module Upload.

Section Pipeline.
Context `{DateAPI}.

(** [JSON.parse] on the reply of the model, with the four fields that the
    function reads off the result (the response schema requires them);
    [None] when it throws. *)
Variable JSON_parse_summary : string -> option SummaryResult.

(** [generateSummaryFromAudio]: the request carries the audio; [response]
    is how the awaited [generateContent] settles, with the text of the
    reply. *)
Definition generateSummaryFromAudio (audioBase64 mimeType : string)
    (response : Settled string) : Settled SummaryResult :=
  match response with
  | Resolved text =>
      let jsonString := JS.trim text in
      match JSON_parse_summary jsonString with
      | Some result => Resolved result
      | None => Rejected "SyntaxError"
      end
  | Rejected error => Rejected error
  end.

(** [handleFileUpload] for a chosen file of type [fileType]; [read] is how
    the awaited [fileToBase64] settles, on a text (the data URL of the
    reader has its comma). Its rejection is caught nowhere: the handler
    ends there. *)
Definition handleFileUpload (fileType blobUrl : string)
    (read response : Settled string) (now_id now_createdAt : Z)
    : list App.Call :=
  ([ App.setIsModalOpen false;
     App.setIsLoading (Some "Uploading and processing file...") ]
   ++ match read with
      | Resolved audioBase64 =>
          App.processAudio audioBase64 fileType blobUrl
            (generateSummaryFromAudio audioBase64 fileType response)
            now_id now_createdAt
      | Rejected _ => []
      end)%list.

(** [handleProcessRecording], the [onstop] handler of the recorder. *)
Definition handleProcessRecording (blobUrl : string)
    (read response : Settled string) (now_id now_createdAt : Z)
    : list App.Call :=
  (App.setIsLoading (Some "Processing audio...")
   :: match read with
      | Resolved audioBase64 =>
          App.processAudio audioBase64 "audio/webm" blobUrl
            (generateSummaryFromAudio audioBase64 "audio/webm" response)
            now_id now_createdAt
      | Rejected _ => []
      end)%list.

(** The summarisation gave a result. *)
Definition summarised (response : Settled string) : bool :=
  match response with
  | Resolved text =>
      match JSON_parse_summary (JS.trim text) with
      | Some _ => true
      | None => false
      end
  | Rejected _ => false
  end.

End Pipeline.

End Upload.

(* ================================================================== *)
(** * The audio payload: data URL, base64, bytes *)

Module Audio.

(** [String.prototype.split] with a separator of one character. *)
Fixpoint split (sep : ascii) (s : string) : list string :=
  match s with
  | EmptyString => [ EmptyString ]
  | String c rest =>
      if Ascii.eqb c sep then EmptyString :: split sep rest
      else match split sep rest with
           | piece :: pieces => String c piece :: pieces
           | [] => [ String c EmptyString ]
           end
  end.

(** [fileToBase64], given how the FileReader ends: [onload] with the data
    URL, or [onerror]. Element 1 of the split is undefined when the text
    has no comma. *)
Definition fileToBase64 (reader : Settled string) : Settled (option string) :=
  match reader with
  | Resolved result => Resolved (nth_error (split "," result) 1)
  | Rejected error => Rejected error
  end.

Fixpoint contains (c : ascii) (s : string) : bool :=
  match s with
  | EmptyString => false
  | String c' rest => Ascii.eqb c' c || contains c rest
  end.

(** ** [atob]: the forgiving base64 decoding *)

Definition isAsciiWhitespace (c : ascii) : bool :=
  let n := nat_of_ascii c in
  (n =? 9)%nat || (n =? 10)%nat || (n =? 12)%nat || (n =? 13)%nat
  || (n =? 32)%nat.

Fixpoint strip (s : string) : list ascii :=
  match s with
  | EmptyString => []
  | String c rest => if isAsciiWhitespace c then strip rest else c :: strip rest
  end.

Definition sextet (c : ascii) : option Z :=
  let n := Z.of_nat (nat_of_ascii c) in
  if (65 <=? n) && (n <=? 90) then Some (n - 65)
  else if (97 <=? n) && (n <=? 122) then Some (n - 71)
  else if (48 <=? n) && (n <=? 57) then Some (n + 4)
  else if n =? 43 then Some 62
  else if n =? 47 then Some 63
  else None.

Fixpoint sextets (l : list ascii) : option (list Z) :=
  match l with
  | [] => Some []
  | c :: rest =>
      match sextet c, sextets rest with
      | Some v, Some vs => Some (v :: vs)
      | _, _ => None
      end
  end.

(** One or two trailing [=] of a text whose length is a multiple of four. *)
Definition dropPadding (l : list ascii) : list ascii :=
  if (List.length l mod 4 =? 0)%nat then
    match rev l with
    | "="%char :: "="%char :: before => rev before
    | "="%char :: before => rev before
    | _ => l
    end
  else l.

Definition byteChar (n : Z) : ascii := ascii_of_N (Z.to_N n).

Fixpoint bytesOf (l : list Z) : list ascii :=
  match l with
  | a :: b :: c :: d :: rest =>
      let n := ((a * 64 + b) * 64 + c) * 64 + d in
      byteChar (n / 65536) :: byteChar ((n / 256) mod 256)
        :: byteChar (n mod 256) :: bytesOf rest
  | [ a; b; c ] =>
      let n := (a * 64 + b) * 64 + c in
      [ byteChar (n / 1024); byteChar ((n / 4) mod 256) ]
  | [ a; b ] => [ byteChar ((a * 64 + b) / 16) ]
  | _ => []
  end.

(** [None] is the InvalidCharacterError. *)
Definition atob (data : string) : option string :=
  let l := dropPadding (strip data) in
  if (List.length l mod 4 =? 1)%nat then None
  else match sextets l with
       | Some vs => Some (string_of_list_ascii (bytesOf vs))
       | None => None
       end.

(** ** [base64ToBlob] *)

Record Blob := {
  bytes : list nat;
  type : string
}.

(** The type that [new Blob(parts, { type })] gives the Blob: the empty
    string when the option holds a character outside U+0020 to U+007E,
    the option in ASCII lower case otherwise. (A character beyond U+007F
    is a sequence of bytes above 127 here, so it is outside the range
    byte by byte as well.) *)
Definition inTypeRange (c : ascii) : bool :=
  let n := nat_of_ascii c in (32 <=? n)%nat && (n <=? 126)%nat.

Definition toAsciiLower (c : ascii) : ascii :=
  let n := nat_of_ascii c in
  if (65 <=? n)%nat && (n <=? 90)%nat then ascii_of_nat (n + 32) else c.

Definition blobType (option : string) : string :=
  let chars := list_ascii_of_string option in
  if forallb inTypeRange chars
  then string_of_list_ascii (map toAsciiLower chars)
  else "".

(** A type that the constructor keeps as it is: in the range and without
    upper-case letters. *)
Definition plainType (option : string) : bool :=
  forallb
    (fun c =>
       let n := nat_of_ascii c in
       inTypeRange c && negb ((65 <=? n)%nat && (n <=? 90)%nat))
    (list_ascii_of_string option).

(** [s.charCodeAt(i)]: NaN outside the string. *)
Definition charCodeAt (s : string) (i : nat) : option nat :=
  match String.get i s with
  | Some c => Some (nat_of_ascii c)
  | None => None
  end.

(** [array[i] = v] on an array with holes: the slot is set; beyond the
    end the array grows, the slots between staying empty. *)
Fixpoint assign (i : nat) (v : option nat) (array : list (option (option nat)))
    : list (option (option nat)) :=
  match i, array with
  | O, [] => [ Some v ]
  | O, _ :: rest => Some v :: rest
  | S i', [] => None :: assign i' v []
  | S i', x :: rest => x :: assign i' v rest
  end.

(** The loop [for (let i = 0; i < byteCharacters.length; i++)], from its
    [i]-th round on; [rounds] is what is left of them. *)
Fixpoint fill (byteCharacters : string) (rounds i : nat)
    (byteNumbers : list (option (option nat))) : list (option (option nat)) :=
  match rounds with
  | O => byteNumbers
  | S rounds' =>
      fill byteCharacters rounds' (S i)
        (assign i (charCodeAt byteCharacters i) byteNumbers)
  end.

(** [new Uint8Array(array)]: a hole or NaN gives 0, a number its value
    modulo 256. *)
Definition toUint8 (slot : option (option nat)) : nat :=
  match slot with
  | Some (Some n) => n mod 256
  | _ => 0
  end.

Definition base64ToBlob (base64 mimeType : string)
    : Storage.Completion Blob :=
  match atob base64 with
  | Some byteCharacters =>
      let byteNumbers := repeat None (String.length byteCharacters) in
      let byteNumbers :=
        fill byteCharacters (String.length byteCharacters) 0 byteNumbers in
      let byteArray := map toUint8 byteNumbers in
      Storage.Normal {| bytes := byteArray; type := blobType mimeType |}
  | None => Storage.Throw "InvalidCharacterError"
  end.

End Audio.

(* ================================================================== *)
(** * More sample data *)

Module Scenes.

Import Sample.

(** Two notes, both active, and a day of operations on them. *)
Definition twoNotes : App.State :=
  App.run [ createAt t1; createAt t2 ] App.initial.

Definition busyDay : list App.Op :=
  [ createAt t1; createAt t2; App.softDelete id1; App.restore id1;
    App.softDelete id2; App.purge id2 ].

(** A reply that breaks off after two fragments. *)
Definition failing : GeminiService.ReplyStream := {|
  GeminiService.chunks := [ "Hel"; "lo" ];
  GeminiService.failure := Some "503 Service Unavailable"
|}.

(** The question is sent and no fragment has come yet. *)
Definition askTrace : list Page.Event := firstn 3 lateTrace.

Definition asked : Page.World :=
  match Page.run askTrace started with
  | Some w => w
  | None => started
  end.

(** The recording has become a note, whose detail view is open. *)
Definition noteTrace : list Page.Event := firstn 5 lateTrace.

Definition noteOpen : Page.World :=
  match Page.run noteTrace started with
  | Some w => w
  | None => started
  end.

(** The chat box while the answer to the question is awaited. *)
Definition waiting : ChatInterface.State := {|
  ChatInterface.messages :=
    [ {| ChatInterface.role := ChatInterface.user;
         ChatInterface.text := "What was decided?" |};
      {| ChatInterface.role := ChatInterface.model;
         ChatInterface.text := "" |} ];
  ChatInterface.input := "";
  ChatInterface.isThinking := true
|}.

(** A serialiser of the collections: the JSON text of an array of notes,
    the keys in the order in which processAudio writes them. *)
Definition hexDigit (n : nat) : ascii :=
  ascii_of_nat (if (n <? 10)%nat then 48 + n else 87 + n).

Definition backslash : string := String (ascii_of_nat 92) EmptyString.

Definition escapeChar (c : ascii) : string :=
  let n := nat_of_ascii c in
  if (n =? 34)%nat then backslash ++ JS.dq
  else if (n =? 92)%nat then backslash ++ backslash
  else if (n =? 8)%nat then backslash ++ "b"
  else if (n =? 9)%nat then backslash ++ "t"
  else if (n =? 10)%nat then backslash ++ "n"
  else if (n =? 12)%nat then backslash ++ "f"
  else if (n =? 13)%nat then backslash ++ "r"
  else if (n <? 32)%nat
       then backslash ++ "u00" ++ String (hexDigit (n / 16))
                                    (String (hexDigit (n mod 16)) "")
  else String c "".

Fixpoint escape (s : string) : string :=
  match s with
  | EmptyString => ""
  | String c rest => escapeChar c ++ escape rest
  end.

Definition quote (s : string) : string := JS.dq ++ escape s ++ JS.dq.

Definition member (key value : string) : string :=
  quote key ++ ":" ++ value.

Definition object (members : list string) : string :=
  "{" ++ JS.join "," members ++ "}".

Definition array (items : list string) : string :=
  "[" ++ JS.join "," items ++ "]".

Definition segmentText (t : TranscriptionSegment) : string :=
  object [ member "speaker" (quote (speaker t));
           member "text" (quote (text t)) ].

Definition noteText (p : SummaryProject) : string :=
  object [ member "id" (quote (id p));
           member "title" (quote (title p));
           member "summary" (quote (summary p));
           member "transcription" (array (map segmentText (transcription p)));
           member "titleEmoji" (quote (titleEmoji p));
           member "audioUrl" (quote (audioUrl p));
           member "audioMimeType" (quote (audioMimeType p));
           member "audioBase64" (quote (audioBase64 p));
           member "createdAt" (quote (createdAt p)) ].

Definition stringify (l : list SummaryProject) : string :=
  array (map noteText l).

(** A [JSON.parse] that reads the texts of the collections it is given
    and throws on every other text. *)
Definition parseKnown (known : list (list SummaryProject)) (text : string)
    : option (list SummaryProject) :=
  find (fun l => (stringify l =? text)%string) known.

Definition parseSample : string -> option (list SummaryProject) :=
  parseKnown [ []; [ note t2 ]; [ note t1 ] ].

(** What is left in the storage after two recordings, the older one put
    into the recycle bin. *)
Definition evening : list App.Op :=
  [ createAt t1; createAt t2; App.softDelete id1 ].

Definition night : App.State * Storage.Store :=
  Persistence.run stringify evening
    (Persistence.mount parseSample stringify emptyStore).

(** A second recording, summarised in the millisecond of the first; and
    the recycle bin after both were put there, one after the other. *)
Definition retro : SummaryResult := {|
  res_title := "Retro";
  res_summary := "What went well in the sprint.";
  res_transcription :=
    [ {| speaker := "Speaker 1"; text := "Let us start." |} ];
  res_titleEmoji := ":D"
|}.

Definition createRetroAt (t : Z) : App.Op :=
  App.create "GkXfo59ChoEC" "audio/webm" "blob:echonote/2" (Resolved retro)
    t t.

Definition retroNote (t : Z) : SummaryProject :=
  App.newProject "GkXfo59ChoEC" "audio/webm" "blob:echonote/2" retro t t.

Definition twinsTrashed : App.State :=
  App.run [ createAt t1; App.softDelete id1;
            createRetroAt t1; App.softDelete id1 ] App.initial.

(** Stores with a theme: one of the options, and a text that is none. *)
Definition darkStore : Storage.Store :=
  fun key => if (key =? Theme.themeKey)%string then Some "DARK" else None.

Definition purpleStore : Storage.Store :=
  fun key => if (key =? Theme.themeKey)%string then Some "PURPLE" else None.

Definition themeDay : list Theme.Event :=
  [ Theme.systemPreference true; Theme.choose Theme.SYSTEM;
    Theme.systemPreference false ].

(** A data URL as the FileReader gives it. *)
Definition dataHeader : string := "data:audio/webm;base64".

Definition payload : string := "GkXfo59ChoEB".

End Scenes.

(* ================================================================== *)
(** * Facts on lists, strings and the sort *)

Section ListFacts.
Variable A : Type.

Lemma filter_none_id (f : A -> bool) (l : list A) :
  (forall x, In x l -> f x = true) -> filter f l = l.
Proof.
  intros Hall. apply forallb_filter_id. apply forallb_forall. exact Hall.
Qed.

Lemma Forall_perm (P : A -> Prop) (l l' : list A) :
  Permutation l l' -> Forall P l -> Forall P l'.
Proof.
  intros Hp Hl. rewrite Forall_forall in *. intros x Hx.
  apply Hl. apply Permutation_in with l'; [ now symmetry | exact Hx ].
Qed.

(** In a strongly sorted list every element splits the list in those
    that may stand before it and those that may stand behind. *)
Lemma sorted_position (R : A -> A -> Prop) (l : list A) (p : A) :
  StronglySorted R l -> In p l ->
  exists l1 l2, l = (l1 ++ p :: l2)%list
                /\ Forall (fun q => R q p) l1 /\ Forall (R p) l2.
Proof.
  induction 1 as [ | a l Hs IH Ha ]; intros Hin.
  - contradiction.
  - destruct Hin as [ -> | Hin ].
    + exists [], l. repeat split; [ constructor | exact Ha ].
    + destruct (IH Hin) as (l1 & l2 & -> & H1 & H2).
      exists (a :: l1), l2. repeat split; [ | exact H2 ].
      constructor; [ | exact H1 ].
      rewrite Forall_forall in Ha. apply Ha.
      apply in_or_app. right. now left.
Qed.

Lemma last_of_snoc (l : list A) (x : A) :
  nth_error (l ++ [x]) (List.length (l ++ [x]) - 1) = Some x.
Proof.
  rewrite length_app. simpl.
  replace (List.length l + 1 - 1)%nat with (List.length l) by lia.
  rewrite nth_error_app2 by lia.
  now rewrite Nat.sub_diag.
Qed.

(** A map that reads its argument through [h] agrees on lists that [h]
    cannot tell apart. *)
Lemma map_factor (B C : Type) (f : A -> C) (h : A -> B) (g : B -> C)
    (l l' : list A) :
  (forall x, f x = g (h x)) -> map h l = map h l' -> map f l = map f l'.
Proof.
  intros Hf Heq.
  rewrite (map_ext f (fun x => g (h x)) Hf l).
  rewrite (map_ext f (fun x => g (h x)) Hf l').
  rewrite <- !map_map with (f := h) (g := g). now rewrite Heq.
Qed.

End ListFacts.

Section SortFacts.
Variable A : Type.
Variable comparefn : A -> A -> JS.number.

Lemma insert_perm (x : A) (l : list A) :
  Permutation (x :: l) (JS.insert comparefn x l).
Proof.
  induction l as [ | y rest IH ]; simpl.
  - apply Permutation_refl.
  - destruct (JS.SortCompare comparefn x y <=? 0).
    + apply Permutation_refl.
    + apply perm_trans with (y :: x :: rest).
      * apply perm_swap.
      * now apply perm_skip.
Qed.

(** The sort rearranges: nothing is lost, added or changed. *)
Lemma sort_perm (l : list A) : Permutation l (JS.sort comparefn l).
Proof.
  induction l as [ | x rest IH ]; simpl.
  - apply perm_nil.
  - apply perm_trans with (x :: JS.sort comparefn rest).
    + now apply perm_skip.
    + apply insert_perm.
Qed.

End SortFacts.

Lemma append_empty_r (s : string) : (s ++ "")%string = s.
Proof. induction s as [ | c s IH ]; simpl; [ reflexivity | now rewrite IH ]. Qed.

Lemma append_assoc (a b c : string) :
  ((a ++ b) ++ c)%string = (a ++ (b ++ c))%string.
Proof. induction a as [ | x a IH ]; simpl; [ reflexivity | now rewrite IH ]. Qed.

Lemma concat_cons (c : string) (cs : list string) :
  String.concat "" (c :: cs) = (c ++ String.concat "" cs)%string.
Proof.
  destruct cs as [ | d cs ]; simpl.
  - now rewrite append_empty_r.
  - reflexivity.
Qed.

(* ================================================================== *)
(** * The note repository *)

Section Repository.
Context `{DateAPI}.
Import App.

Lemma notOlder_trans (a b c : SummaryProject) :
  notOlder a b -> notOlder b c -> notOlder a c.
Proof.
  unfold notOlder.
  destruct (createdTime a), (createdTime b), (createdTime c);
    try contradiction; lia.
Qed.

Lemma notOlder_of_compare (a b : SummaryProject) :
  validDate a -> validDate b ->
  JS.SortCompare byCreatedAtDesc a b <= 0 -> notOlder a b.
Proof.
  unfold validDate, notOlder, JS.SortCompare, byCreatedAtDesc, createdTime.
  destruct (getTime (createdAt a)), (getTime (createdAt b));
    simpl; try congruence; lia.
Qed.

Lemma notOlder_of_compare_gt (a b : SummaryProject) :
  validDate a -> validDate b ->
  0 < JS.SortCompare byCreatedAtDesc a b -> notOlder b a.
Proof.
  unfold validDate, notOlder, JS.SortCompare, byCreatedAtDesc, createdTime.
  destruct (getTime (createdAt a)), (getTime (createdAt b));
    simpl; try congruence; lia.
Qed.

Lemma insert_sorted (x : SummaryProject) (l : list SummaryProject) :
  validDate x -> Forall validDate l -> sortedByCreatedAtDesc l ->
  sortedByCreatedAtDesc (JS.insert byCreatedAtDesc x l).
Proof.
  unfold sortedByCreatedAtDesc. intros Hx.
  induction l as [ | y rest IH ]; intros Hv Hs; simpl.
  - constructor; constructor.
  - inversion Hv as [ | ? ? Hy Hrest ]; subst.
    apply StronglySorted_inv in Hs. destruct Hs as [Hs Hall].
    destruct (JS.SortCompare byCreatedAtDesc x y <=? 0) eqn:Hc.
    + apply Z.leb_le in Hc.
      assert (Hxy : notOlder x y) by now apply notOlder_of_compare.
      constructor.
      * constructor; assumption.
      * constructor; [ exact Hxy | ].
        eapply Forall_impl; [ | exact Hall ].
        intros z Hz. now apply notOlder_trans with y.
    + apply Z.leb_gt in Hc.
      constructor.
      * now apply IH.
      * apply Forall_perm with (x :: rest); [ apply insert_perm | ].
        constructor; [ now apply notOlder_of_compare_gt | exact Hall ].
Qed.

(** Whatever the order before, the sort leaves the notes in descending
    order of [createdAt]. *)
Lemma sort_sorted (l : list SummaryProject) :
  Forall validDate l -> sortedByCreatedAtDesc (JS.sort byCreatedAtDesc l).
Proof.
  induction l as [ | x rest IH ]; intros Hv; simpl.
  - constructor.
  - inversion Hv; subst. apply insert_sorted.
    + assumption.
    + apply Forall_perm with rest; [ apply sort_perm | assumption ].
    + now apply IH.
Qed.

(** A list that is in order already is left as it is. *)
Lemma sort_fixes_sorted (l : list SummaryProject) :
  sortedByCreatedAtDesc l -> JS.sort byCreatedAtDesc l = l.
Proof.
  induction 1 as [ | a l Hs IH Ha ]; simpl.
  - reflexivity.
  - rewrite IH. destruct l as [ | b rest ]; simpl.
    + reflexivity.
    + inversion Ha as [ | ? ? Hab _ ]; subst.
      unfold notOlder, createdTime in Hab.
      unfold JS.SortCompare, byCreatedAtDesc.
      destruct (getTime (createdAt a)) as [ ta | ],
               (getTime (createdAt b)) as [ tb | ];
        simpl; try contradiction.
      destruct (tb - ta <=? 0) eqn:Hc; [ reflexivity | ].
      apply Z.leb_gt in Hc. lia.
Qed.

Lemma sameFields_refl (p : SummaryProject) : sameFields p p.
Proof. repeat split. Qed.

Lemma validDates_checked (l : list SummaryProject) :
  forallb validDateb l = true -> Forall validDate l.
Proof.
  rewrite forallb_forall, Forall_forall. intros Hall p Hp.
  specialize (Hall p Hp). unfold validDateb, validDate in *.
  destruct (createdTime p); [ discriminate | discriminate ].
Qed.

Lemma hasId_true (i : string) (p : SummaryProject) :
  hasId i p = true <-> id p = i.
Proof. apply String.eqb_eq. Qed.

Lemma hasNotId_true (i : string) (p : SummaryProject) :
  hasNotId i p = true <-> id p <> i.
Proof.
  unfold hasNotId. rewrite negb_true_iff. apply String.eqb_neq.
Qed.

Lemma find_id (i : string) (l : list SummaryProject) (p : SummaryProject) :
  find (hasId i) l = Some p -> In p l /\ id p = i.
Proof.
  intros Hf. apply find_some in Hf. destruct Hf as [Hin Hid].
  split; [ exact Hin | now apply hasId_true ].
Qed.

(** With ids that are not repeated, a listed note is the one its id finds. *)
Lemma find_listed (l : list SummaryProject) (p : SummaryProject) :
  In p l -> NoDup (map id l) -> find (hasId (id p)) l = Some p.
Proof.
  induction l as [ | q rest IH ]; simpl; intros Hin Hnd.
  - contradiction.
  - apply NoDup_cons_iff in Hnd. destruct Hnd as [Hq Hrest].
    destruct Hin as [ -> | Hin ].
    + unfold hasId. now rewrite String.eqb_refl.
    + destruct (hasId (id p) q) eqn:Hid; [ | now apply IH ].
      apply hasId_true in Hid. exfalso. apply Hq. rewrite Hid.
      now apply in_map.
Qed.

(** No note with the id: the filter of the handlers keeps everything. *)
Lemma filter_not_found (i : string) (l : list SummaryProject) :
  find (hasId i) l = None -> filter (hasNotId i) l = l.
Proof.
  intros Hf. apply filter_none_id. intros x Hx.
  unfold hasNotId. apply negb_true_iff.
  exact (find_none _ _ Hf x Hx).
Qed.

Lemma in_ids_filter (i j : string) (l : list SummaryProject) :
  In j (map id (filter (hasNotId i) l)) -> In j (map id l) /\ j <> i.
Proof.
  rewrite !in_map_iff. intros (p & <- & Hp).
  apply filter_In in Hp. destruct Hp as [Hin Hne].
  split; [ now exists p | now apply hasNotId_true ].
Qed.

Lemma NoDup_ids_filter (i : string) (l : list SummaryProject) :
  NoDup (map id l) -> NoDup (map id (filter (hasNotId i) l)).
Proof.
  induction l as [ | q rest IH ]; simpl; intros Hnd.
  - constructor.
  - apply NoDup_cons_iff in Hnd. destruct Hnd as [Hq Hrest].
    destruct (hasNotId i q); simpl.
    + constructor; [ | now apply IH ].
      intros Hin. apply in_ids_filter in Hin. now destruct Hin.
    + now apply IH.
Qed.

Lemma NoDup_ids_filter_app (i : string) (l : list SummaryProject)
    (r : list string) :
  NoDup (map id l ++ r) -> NoDup (map id (filter (hasNotId i) l) ++ r).
Proof.
  induction l as [ | q rest IH ]; simpl; intros Hnd.
  - exact Hnd.
  - apply NoDup_cons_iff in Hnd. destruct Hnd as [Hq Hrest].
    destruct (hasNotId i q); simpl; [ | now apply IH ].
    constructor; [ | now apply IH ].
    intros Hin. apply Hq. apply in_app_or in Hin. apply in_or_app.
    destruct Hin as [ Hin | Hin ]; [ left | now right ].
    apply in_ids_filter in Hin. now destruct Hin.
Qed.

(** Moving the found note out of [from] and into [to] keeps the ids
    apart: the shape shared by [deleteProject] and [restoreProject]. *)
Lemma move_exclusive (i : string) (from : list SummaryProject)
    (to : list string) (p : SummaryProject) :
  NoDup (map id from ++ to) -> find (hasId i) from = Some p ->
  NoDup (map id (filter (hasNotId i) from) ++ id p :: to).
Proof.
  intros Hnd Hf. apply find_id in Hf. destruct Hf as [Hin Hid].
  assert (Hfrom : NoDup (map id from)).
  { apply NoDup_app_remove_l with (l := to).
    apply Permutation_NoDup with (map id from ++ to)%list;
      [ apply Permutation_app_comm | exact Hnd ]. }
  assert (Hto : NoDup to) by now apply NoDup_app_remove_l in Hnd.
  assert (Hsep : forall j, In j (map id from) -> ~ In j to).
  { intros j Hj Hj'. revert Hnd Hj Hj'. clear. generalize (map id from).
    induction l as [ | a l IH ]; simpl; intros Hnd Hj Hj'.
    - contradiction.
    - apply NoDup_cons_iff in Hnd. destruct Hnd as [Ha Hl].
      destruct Hj as [ -> | Hj ].
      + apply Ha. apply in_or_app. now right.
      + now apply IH. }
  apply NoDup_app.
  - now apply NoDup_ids_filter.
  - constructor; [ | exact Hto ].
    apply Hsep. apply in_map_iff. now exists p.
  - intros j Hj [ Hj' | Hj' ].
    + apply in_ids_filter in Hj. destruct Hj as [_ Hne]. congruence.
    + apply in_ids_filter in Hj. destruct Hj as [Hj _].
      exact (Hsep j Hj Hj').
Qed.

Lemma mem_In (i : string) (l : list string) : mem i l = true <-> In i l.
Proof.
  unfold mem. rewrite existsb_exists. split.
  - intros (x & Hx & He). apply String.eqb_eq in He. now subst.
  - intros Hin. exists i. split; [ exact Hin | apply String.eqb_refl ].
Qed.

(** ** What each operation leaves in the two collections *)

Lemma step_create_resolved base64 mimeType blobUrl r now_id now_createdAt st :
  let p := newProject base64 mimeType blobUrl r now_id now_createdAt in
  let st' := step st (create base64 mimeType blobUrl (Resolved r)
                        now_id now_createdAt) in
  projects st' = JS.sort byCreatedAtDesc (p :: projects st)
  /\ deletedProjects st' = deletedProjects st
  /\ activeProject st' = Some p.
Proof. repeat split. Qed.

Lemma step_create_rejected base64 mimeType blobUrl e now_id now_createdAt st :
  let st' := step st (create base64 mimeType blobUrl (Rejected e)
                        now_id now_createdAt) in
  projects st' = projects st /\ deletedProjects st' = deletedProjects st.
Proof. repeat split. Qed.

Lemma step_softDelete_found i p st :
  find (hasId i) (projects st) = Some p ->
  projects (step st (softDelete i)) = filter (hasNotId i) (projects st)
  /\ deletedProjects (step st (softDelete i)) = p :: deletedProjects st.
Proof.
  intros Hf. unfold step, handler, deleteProject. rewrite Hf. now split.
Qed.

Lemma step_softDelete_missing i st :
  find (hasId i) (projects st) = None -> step st (softDelete i) = st.
Proof.
  intros Hf. unfold step, handler, deleteProject. now rewrite Hf.
Qed.

Lemma step_restore_found i p st :
  find (hasId i) (deletedProjects st) = Some p ->
  projects (step st (restore i))
    = JS.sort byCreatedAtDesc (projects st ++ [p])
  /\ deletedProjects (step st (restore i))
     = filter (hasNotId i) (deletedProjects st).
Proof.
  intros Hf. unfold step, handler, restoreProject. rewrite Hf. now split.
Qed.

Lemma step_restore_missing i st :
  find (hasId i) (deletedProjects st) = None -> step st (restore i) = st.
Proof.
  intros Hf. unfold step, handler, restoreProject. now rewrite Hf.
Qed.

Lemma step_purge i st :
  projects (step st (purge i)) = projects st
  /\ deletedProjects (step st (purge i))
     = filter (hasNotId i) (deletedProjects st).
Proof. now split. Qed.

Lemma step_purge_missing i st :
  find (hasId i) (deletedProjects st) = None -> step st (purge i) = st.
Proof.
  intros Hf. unfold step, handler, permanentlyDeleteProject, commit.
  simpl. rewrite (filter_not_found _ _ Hf). now destruct st.
Qed.

(** ** The ids stay apart *)

Lemma step_exclusive (st : State) (op : Op) :
  freshIds [op] st = true -> exclusive st -> exclusive (step st op).
Proof.
  unfold exclusive, ids. intros Hfresh Hex.
  destruct op as [ base64 mimeType blobUrl [ r | e ] now_id now_createdAt
                 | i | i | i ].
  - simpl in Hfresh. rewrite andb_true_r, negb_true_iff in Hfresh.
    destruct (step_create_resolved base64 mimeType blobUrl r
                now_id now_createdAt st) as (-> & -> & _).
    set (p := newProject _ _ _ _ _ _).
    apply Permutation_NoDup
      with (map id (p :: projects st) ++ map id (deletedProjects st))%list.
    + apply Permutation_app_tail. apply Permutation_map. apply sort_perm.
    + simpl. constructor; [ | exact Hex ].
      intros Hin. apply mem_In in Hin. unfold ids in Hfresh. congruence.
  - destruct (step_create_rejected base64 mimeType blobUrl e
                now_id now_createdAt st) as (-> & ->). exact Hex.
  - destruct (find (hasId i) (projects st)) as [ p | ] eqn:Hf.
    + destruct (step_softDelete_found _ _ Hf) as (-> & ->). simpl.
      now apply move_exclusive.
    + now rewrite step_softDelete_missing.
  - destruct (find (hasId i) (deletedProjects st)) as [ p | ] eqn:Hf.
    + destruct (step_restore_found _ _ Hf) as (-> & ->).
      apply Permutation_NoDup
        with (map id (filter (hasNotId i) (deletedProjects st))
                ++ id p :: map id (projects st))%list.
      * apply perm_trans
          with (map id (projects st ++ [p])
                  ++ map id (filter (hasNotId i) (deletedProjects st)))%list.
        -- rewrite map_app. simpl.
           apply perm_trans
             with ((id p :: map id (projects st))
                     ++ map id (filter (hasNotId i) (deletedProjects st)))%list.
           ++ apply Permutation_app_comm.
           ++ apply Permutation_app_tail. apply Permutation_cons_append.
        -- apply Permutation_app_tail. apply Permutation_map. apply sort_perm.
      * apply move_exclusive; [ | exact Hf ].
        apply Permutation_NoDup
          with (map id (projects st) ++ map id (deletedProjects st))%list;
          [ apply Permutation_app_comm | exact Hex ].
    + now rewrite step_restore_missing.
  - destruct (step_purge i st) as (-> & ->).
    apply Permutation_NoDup
      with (map id (filter (hasNotId i) (deletedProjects st))
              ++ map id (projects st))%list;
      [ apply Permutation_app_comm | ].
    assert (Hex' : NoDup (map id (deletedProjects st) ++ map id (projects st))).
    { apply Permutation_NoDup
        with (map id (projects st) ++ map id (deletedProjects st))%list;
        [ apply Permutation_app_comm | exact Hex ]. }
    now apply NoDup_ids_filter_app.
Qed.

Lemma run_exclusive (ops : list Op) (st : State) :
  freshIds ops st = true -> exclusive st -> exclusive (run ops st).
Proof.
  revert st. induction ops as [ | op rest IH ]; simpl; intros st Hfresh Hex.
  - exact Hex.
  - apply andb_true_iff in Hfresh. destruct Hfresh as [Hop Hrest].
    apply IH; [ exact Hrest | ].
    apply step_exclusive; [ | exact Hex ].
    simpl. now rewrite Hop.
Qed.

Lemma freshIds_prefix (ops : list Op) (k : nat) (st : State) :
  freshIds ops st = true -> freshIds (firstn k ops) st = true.
Proof.
  revert k st. induction ops as [ | op rest IH ]; intros [ | k ] st Hf;
    simpl; try reflexivity.
  simpl in Hf. apply andb_true_iff in Hf. destruct Hf as [Hop Hrest].
  rewrite Hop. simpl. now apply IH.
Qed.

Lemma exclusive_spelled (st : State) :
  exclusive st ->
  NoDup (map id (projects st)) /\ NoDup (map id (deletedProjects st))
  /\ forall i, In i (map id (projects st))
               -> ~ In i (map id (deletedProjects st)).
Proof.
  unfold exclusive, ids. intros Hnd. repeat split.
  - apply NoDup_app_remove_l with (l := map id (deletedProjects st)).
    apply Permutation_NoDup
      with (map id (projects st) ++ map id (deletedProjects st))%list;
      [ apply Permutation_app_comm | exact Hnd ].
  - now apply NoDup_app_remove_l in Hnd.
  - revert Hnd. generalize (map id (deletedProjects st)).
    induction (map id (projects st)) as [ | a l IH ];
      simpl; intros l' Hnd i Hi Hi'.
    + contradiction.
    + apply NoDup_cons_iff in Hnd. destruct Hnd as [Ha Hl].
      destruct Hi as [ -> | Hi ].
      * apply Ha. apply in_or_app. now right.
      * exact (IH l' Hl i Hi Hi').
Qed.

End Repository.

(* ================================================================== *)
(** * Properties of the note repository *)

Section RepositoryClaims.
Context `{DateAPI}.
Import App.

(** C1, amended. For every sequence of create, softDelete, restore and
    purge operations from the empty collections in which every created
    note gets an id that neither collection holds at that moment, after
    every prefix of the sequence each id is in at most one of the active
    and the trashed collection, and at most once in it. *)
Theorem ids_exclusive_when_fresh (ops : list Op) (k : nat) :
  freshIds ops initial = true ->
  let st := run (firstn k ops) initial in
  NoDup (map id (projects st)) /\ NoDup (map id (deletedProjects st))
  /\ forall i, In i (map id (projects st))
               -> ~ In i (map id (deletedProjects st)).
Proof.
  intros Hfresh st. apply exclusive_spelled. apply run_exclusive.
  - now apply freshIds_prefix.
  - constructor.
Qed.

(** C2, amended. create(note) inserts the note into activeNotes and
    re-sorts activeNotes by createdAt descending (the dates being valid);
    it leaves trashedNotes alone and checks no id: it does not fail,
    whether or not the id is already in a collection. *)
Theorem create_inserts_sorted_unchecked
    (base64 mimeType blobUrl : string) (r : SummaryResult)
    (now_id now_createdAt : Z) (st : State) :
  let p := newProject base64 mimeType blobUrl r now_id now_createdAt in
  let op := create base64 mimeType blobUrl (Resolved r) now_id now_createdAt in
  Permutation (p :: projects st) (projects (step st op))
  /\ deletedProjects (step st op) = deletedProjects st
  /\ (Forall validDate (p :: projects st)
      -> sortedByCreatedAtDesc (projects (step st op)))
  /\ signalled (handler op st) = false.
Proof.
  intros p op.
  destruct (step_create_resolved base64 mimeType blobUrl r
              now_id now_createdAt st) as (Hp & Hd & _).
  fold p in Hp. fold op in Hp, Hd. rewrite Hp, Hd.
  repeat split.
  - apply sort_perm.
  - apply sort_sorted.
Qed.

(** C4, amended. For the note that restore(id) finds in trashedNotes,
    which is the first note there with that id, the active list right
    after the restore is in createdAt descending order (the dates being
    valid) and holds the restored note next to the notes it had: every
    note before the restored one is not older, every note behind it not
    newer. Nothing but the createdAt values decides the place. *)
Theorem restore_places_by_createdAt (st : State) (i : string)
    (p : SummaryProject) :
  find (hasId i) (deletedProjects st) = Some p ->
  Forall validDate (p :: projects st) ->
  let active := projects (step st (restore i)) in
  sortedByCreatedAtDesc active
  /\ Permutation (p :: projects st) active
  /\ exists before behind,
       active = (before ++ p :: behind)%list
       /\ Forall (fun q => notOlder q p) before
       /\ Forall (notOlder p) behind.
Proof.
  intros Hf Hv active.
  destruct (step_restore_found _ _ Hf) as (Hp & _).
  assert (Hperm : Permutation (p :: projects st) active).
  { unfold active. rewrite Hp.
    apply perm_trans with (projects st ++ [p])%list;
      [ apply Permutation_cons_append | apply sort_perm ]. }
  assert (Hs : sortedByCreatedAtDesc active).
  { unfold active. rewrite Hp. apply sort_sorted.
    apply Forall_perm with (p :: projects st);
      [ apply Permutation_cons_append | exact Hv ]. }
  repeat split; [ exact Hs | exact Hperm | ].
  apply sorted_position; [ exact Hs | ].
  apply Permutation_in with (p :: projects st); [ exact Hperm | now left ].
Qed.

(** The same for every note that is listed in trashedNotes, when no id is
    repeated there: restore(id) then finds the note itself. *)
Corollary restore_places_listed_note (st : State) (p : SummaryProject) :
  In p (deletedProjects st) -> NoDup (map id (deletedProjects st)) ->
  Forall validDate (p :: projects st) ->
  sortedByCreatedAtDesc (projects (step st (restore (id p))))
  /\ In p (projects (step st (restore (id p)))).
Proof.
  intros Hin Hnd Hv.
  assert (Hf : find (hasId (id p)) (deletedProjects st) = Some p)
    by now apply find_listed.
  destruct (step_restore_found _ _ Hf) as (Hp & _). rewrite Hp. split.
  - apply sort_sorted.
    apply Forall_perm with (p :: projects st);
      [ apply Permutation_cons_append | exact Hv ].
  - apply Permutation_in with (projects st ++ [p])%list;
      [ apply sort_perm | ].
    apply in_or_app. right. now left.
Qed.

(** C8, amended. When the id is not found in the source collection,
    softDelete, restore and purge leave the state, and so both
    collections, unchanged; none of them tells the caller: no alert, no
    console message, and a handler returns nothing. *)
Theorem not_found_is_silent_noop (st : State) (i : string) :
  (find (hasId i) (projects st) = None ->
     step st (softDelete i) = st
     /\ signalled (handler (softDelete i) st) = false)
  /\ (find (hasId i) (deletedProjects st) = None ->
        step st (restore i) = st
        /\ signalled (handler (restore i) st) = false)
  /\ (find (hasId i) (deletedProjects st) = None ->
        step st (purge i) = st
        /\ signalled (handler (purge i) st) = false).
Proof.
  split; [ | split ]; intros Hf; split.
  - now apply step_softDelete_missing.
  - simpl. unfold deleteProject. now rewrite Hf.
  - now apply step_restore_missing.
  - simpl. unfold restoreProject. now rewrite Hf.
  - now apply step_purge_missing.
  - reflexivity.
Qed.

(** C9. A move changes no field. After softDelete the found note heads
    trashedNotes, after restore it is in activeNotes, in both cases with
    the id, title, emoji, summary, transcript, audio payload and
    createdAt it had; and every note of the collections after the move
    is, field for field, a note of the collections before it. *)
Theorem move_keeps_fields (st : State) (i : string) (p : SummaryProject) :
  (find (hasId i) (projects st) = Some p ->
     let st' := step st (softDelete i) in
     (exists q, hd_error (deletedProjects st') = Some q /\ sameFields p q)
     /\ forall q, In q (projects st' ++ deletedProjects st')
                  -> In q (projects st ++ deletedProjects st))
  /\ (find (hasId i) (deletedProjects st) = Some p ->
        let st' := step st (restore i) in
        (exists q, In q (projects st') /\ sameFields p q)
        /\ forall q, In q (projects st' ++ deletedProjects st')
                     -> In q (projects st ++ deletedProjects st)).
Proof.
  split; intros Hf st'.
  - destruct (step_softDelete_found _ _ Hf) as (Hp & Hd).
    fold st' in Hp, Hd. rewrite Hp, Hd. split.
    + exists p. split; [ reflexivity | apply sameFields_refl ].
    + intros q Hq. apply in_or_app. apply in_app_or in Hq.
      destruct Hq as [ Hq | [ <- | Hq ] ].
      * left. apply filter_In in Hq. now destruct Hq.
      * left. now apply find_id in Hf.
      * now right.
  - destruct (step_restore_found _ _ Hf) as (Hp & Hd).
    fold st' in Hp, Hd. rewrite Hp, Hd.
    assert (Hperm : Permutation (projects st ++ [p])
                      (JS.sort byCreatedAtDesc (projects st ++ [p])))
      by apply sort_perm.
    split.
    + exists p. split; [ | apply sameFields_refl ].
      apply Permutation_in with (projects st ++ [p])%list; [ exact Hperm | ].
      apply in_or_app. right. now left.
    + intros q Hq. apply in_or_app. apply in_app_or in Hq.
      destruct Hq as [ Hq | Hq ].
      * apply Permutation_in with (l' := (projects st ++ [p])%list) in Hq;
          [ | now symmetry ].
        apply in_app_or in Hq. destruct Hq as [ Hq | [ <- | [] ] ].
        -- now left.
        -- right. now apply find_id in Hf.
      * right. apply filter_In in Hq. now destruct Hq.
Qed.

(** C10. The id of a new note is the ISO text of a clock reading taken at
    its creation, as its createdAt is, and nothing makes it unique: two
    creations that read the same millisecond give their notes the same
    id, and both notes are then in activeNotes. *)
Theorem id_is_creation_timestamp
    (base64 mimeType blobUrl base64' mimeType' blobUrl' : string)
    (r r' : SummaryResult) (now created created' : Z) (st : State) :
  let p := newProject base64 mimeType blobUrl r now created in
  let q := newProject base64' mimeType' blobUrl' r' now created' in
  id p = toISOString now /\ createdAt p = toISOString created
  /\ id p = id q
  /\ Permutation (q :: p :: projects st)
       (projects
          (run [ create base64 mimeType blobUrl (Resolved r) now created;
                 create base64' mimeType' blobUrl' (Resolved r') now created' ]
             st)).
Proof.
  intros p q. repeat split.
  simpl. fold p q.
  apply perm_trans with (q :: JS.sort byCreatedAtDesc (p :: projects st)).
  - apply perm_skip. apply sort_perm.
  - apply (sort_perm byCreatedAtDesc
             (q :: JS.sort byCreatedAtDesc (p :: projects st))).
Qed.

End RepositoryClaims.

(* ================================================================== *)
(** * The repository on the sample data *)

Section RepositoryExamples.
Import App Sample.

Example sample_clock_texts :
  toISOString t1 = id1 /\ toISOString t2 = id2
  /\ getTime id1 = Some t1 /\ getTime id2 = Some t2.
Proof. vm_compute. repeat split. Qed.

Example create_newest_first :
  map id (projects (run [ createAt t1; createAt t2 ] initial)) = [ id2; id1 ].
Proof. vm_compute. reflexivity. Qed.

Example softDelete_then_restore :
  map id (projects oneTrashed) = [ id2 ]
  /\ map id (deletedProjects oneTrashed) = [ id1 ]
  /\ map id (projects (step oneTrashed (restore id1))) = [ id2; id1 ]
  /\ deletedProjects (step oneTrashed (restore id1)) = [].
Proof. vm_compute. repeat split. Qed.

(** C1 as stated fails. Two notes created within one millisecond share
    their id, twice in activeNotes; and a note created in the millisecond
    of a note that is in the trash has its id in both collections. *)
Lemma same_millisecond_breaks_exclusive :
  ~ exclusive (run [ createAt t1; createAt t1 ] initial)
  /\ ~ exclusive (run [ createAt t1; softDelete id1; createAt t1 ] initial).
Proof.
  split; intros Hnd; vm_compute in Hnd;
    apply NoDup_cons_iff in Hnd; destruct Hnd as [Hnot _];
    apply Hnot; now left.
Qed.

Lemma ids_exclusive_when_fresh_witness :
  let ops := [ createAt t1; createAt t2; softDelete id1; restore id1;
               softDelete id2; purge id2 ] in
  freshIds ops initial = true
  /\ let st := run (firstn 6 ops) initial in
     NoDup (map id (projects st)) /\ NoDup (map id (deletedProjects st))
     /\ forall i, In i (map id (projects st))
                  -> ~ In i (map id (deletedProjects st)).
Proof.
  intros ops. split.
  - vm_compute. reflexivity.
  - apply (ids_exclusive_when_fresh ops 6). vm_compute. reflexivity.
Defined.

(** C2 as stated fails. The id is in activeNotes already and create does
    not fail: no alert, and activeNotes then holds the id twice. *)
Lemma create_accepts_existing_id :
  let st := step initial (createAt t1) in
  mem id1 (ids st) = true
  /\ signalled (handler (createAt t1) st) = false
  /\ map id (projects (step st (createAt t1))) = [ id1; id1 ].
Proof. vm_compute. repeat split. Qed.

Lemma create_inserts_sorted_unchecked_witness :
  let st := step initial (createAt t1) in
  Forall validDate (note t2 :: projects st)
  /\ sortedByCreatedAtDesc (projects (step st (createAt t2))).
Proof.
  intros st.
  assert (Hv : Forall validDate (note t2 :: projects st))
    by (apply validDates_checked; vm_compute; reflexivity).
  split; [ exact Hv | ].
  exact (proj1 (proj2 (proj2
           (create_inserts_sorted_unchecked
              "GkXfo59ChoEB" "audio/webm" "blob:echonote/1" standup t2 t2 st)))
           Hv).
Defined.

Lemma restore_places_by_createdAt_witness :
  find (hasId id1) (deletedProjects oneTrashed) = Some (note t1)
  /\ Forall validDate (note t1 :: projects oneTrashed)
  /\ sortedByCreatedAtDesc (projects (step oneTrashed (restore id1))).
Proof.
  assert (Hf : find (hasId id1) (deletedProjects oneTrashed) = Some (note t1))
    by (vm_compute; reflexivity).
  assert (Hv : Forall validDate (note t1 :: projects oneTrashed))
    by (apply validDates_checked; vm_compute; reflexivity).
  split; [ exact Hf | split; [ exact Hv | ] ].
  exact (proj1 (restore_places_by_createdAt oneTrashed id1 Hf Hv)).
Defined.

(** C8 as stated fails. The id is in neither collection, and none of the
    three handlers signals anything. *)
Lemma not_found_gives_no_signal :
  find (hasId "a1") (projects oneTrashed) = None
  /\ find (hasId "a1") (deletedProjects oneTrashed) = None
  /\ signalled (handler (softDelete "a1") oneTrashed) = false
  /\ signalled (handler (restore "a1") oneTrashed) = false
  /\ signalled (handler (purge "a1") oneTrashed) = false.
Proof. vm_compute. repeat split. Qed.

Lemma not_found_is_silent_noop_witness :
  find (hasId "a1") (projects oneTrashed) = None
  /\ find (hasId "a1") (deletedProjects oneTrashed) = None
  /\ step oneTrashed (softDelete "a1") = oneTrashed
  /\ step oneTrashed (restore "a1") = oneTrashed
  /\ step oneTrashed (purge "a1") = oneTrashed.
Proof.
  assert (Ha : find (hasId "a1") (projects oneTrashed) = None)
    by (vm_compute; reflexivity).
  assert (Hd : find (hasId "a1") (deletedProjects oneTrashed) = None)
    by (vm_compute; reflexivity).
  destruct (not_found_is_silent_noop oneTrashed "a1") as (H1 & H2 & H3).
  split; [ exact Ha | split; [ exact Hd | split; [ | split ] ] ].
  - exact (proj1 (H1 Ha)).
  - exact (proj1 (H2 Hd)).
  - exact (proj1 (H3 Hd)).
Defined.

Lemma move_keeps_fields_witness :
  find (hasId id2) (projects oneTrashed) = Some (note t2)
  /\ find (hasId id1) (deletedProjects oneTrashed) = Some (note t1)
  /\ (exists q, hd_error (deletedProjects (step oneTrashed (softDelete id2)))
                = Some q /\ sameFields (note t2) q)
  /\ (exists q, In q (projects (step oneTrashed (restore id1)))
                /\ sameFields (note t1) q).
Proof.
  assert (Ha : find (hasId id2) (projects oneTrashed) = Some (note t2))
    by (vm_compute; reflexivity).
  assert (Hd : find (hasId id1) (deletedProjects oneTrashed) = Some (note t1))
    by (vm_compute; reflexivity).
  split; [ exact Ha | split; [ exact Hd | split ] ].
  - exact (proj1 (proj1 (move_keeps_fields oneTrashed id2 (note t2)) Ha)).
  - exact (proj1 (proj2 (move_keeps_fields oneTrashed id1 (note t1)) Hd)).
Defined.

End RepositoryExamples.

(* ================================================================== *)
(** * The context builder *)

Section ContextBuilder.
Import App GeminiService.

Lemma activeProjectsContext_reads (ps ps' : list SummaryProject) :
  map (fun p => (title p, summary p)) ps
    = map (fun p => (title p, summary p)) ps' ->
  activeProjectsContext ps = activeProjectsContext ps'.
Proof.
  intros Heq. unfold activeProjectsContext.
  assert (Hlen : List.length ps = List.length ps').
  { rewrite <- (length_map (fun p => (title p, summary p)) ps), Heq.
    apply length_map. }
  assert (Hlines : map activeLine ps = map activeLine ps').
  { apply map_factor
      with (h := fun p => (title p, summary p))
           (g := fun ts : string * string =>
                   ("- Title: " ++ JS.dq ++ fst ts ++ JS.dq
                      ++ " (Summary: " ++ snd ts ++ ")")%string);
      [ reflexivity | exact Heq ]. }
  now rewrite Hlen, Hlines.
Qed.

Lemma deletedProjectsContext_reads (ds ds' : list SummaryProject) :
  map title ds = map title ds' ->
  deletedProjectsContext ds = deletedProjectsContext ds'.
Proof.
  intros Heq. unfold deletedProjectsContext.
  assert (Hlen : List.length ds = List.length ds').
  { rewrite <- (length_map title ds), Heq. apply length_map. }
  assert (Hlines : map deletedLine ds = map deletedLine ds').
  { apply map_factor
      with (h := title)
           (g := fun t : string => ("- Title: " ++ JS.dq ++ t ++ JS.dq)%string);
      [ reflexivity | exact Heq ]. }
  now rewrite Hlen, Hlines.
Qed.

(** The text reads the titles and summaries of the active notes and the
    titles of the trashed ones, in their order, and nothing else. *)
Lemma buildGlobalContext_reads (ps ds ps' ds' : list SummaryProject) :
  map (fun p => (title p, summary p)) ps
    = map (fun p => (title p, summary p)) ps' ->
  map title ds = map title ds' ->
  buildGlobalContext ps ds = buildGlobalContext ps' ds'.
Proof.
  intros Hp Hd. unfold buildGlobalContext.
  now rewrite (activeProjectsContext_reads _ _ Hp),
              (deletedProjectsContext_reads _ _ Hd).
Qed.

Lemma sameFields_titles (l l' : list SummaryProject) :
  Forall2 sameFields l l' ->
  map (fun p => (title p, summary p)) l
    = map (fun p => (title p, summary p)) l'
  /\ map title l = map title l'.
Proof.
  induction 1 as [ | p q l l' Hpq _ [IH1 IH2] ]; simpl.
  - now split.
  - destruct Hpq as (_ & Ht & _ & Hs & _).
    now rewrite Ht, Hs, IH1, IH2.
Qed.

(** C7. Two calls on collections with the same contents (the same notes,
    field for field, in the same order) produce the same text, and so the
    same system instruction of the session that is created. *)
Theorem buildGlobalContext_deterministic
    (ps ds ps' ds' : list SummaryProject) :
  Forall2 sameFields ps ps' -> Forall2 sameFields ds ds' ->
  buildGlobalContext ps ds = buildGlobalContext ps' ds'
  /\ systemInstruction (createGlobalChat ps ds)
     = systemInstruction (createGlobalChat ps' ds').
Proof.
  intros Hp Hd.
  assert (Heq : buildGlobalContext ps ds = buildGlobalContext ps' ds').
  { apply buildGlobalContext_reads.
    - now apply sameFields_titles.
    - now apply sameFields_titles. }
  split; [ exact Heq | exact Heq ].
Qed.

End ContextBuilder.

(* ================================================================== *)
(** * Loading *)

Section Loading.
Variable JSON_parse : string -> option (list SummaryProject).
Import Storage.


(** The load effect on slots that are missing, unparsable or hold the text
    of an array of notes. It completes without throwing; and a collection
    whose stored text is missing (absent or empty) or cannot be parsed is
    the empty collection after the load. *)
Theorem load_degrades_to_empty (localStorage : Store) :
  (exists calls, loadEffect JSON_parse localStorage = (calls, Normal tt))
  /\ (missing (localStorage projectsKey)
      \/ corrupt JSON_parse (localStorage projectsKey) ->
      App.projects (loaded JSON_parse localStorage) = [])
  /\ (missing (localStorage deletedProjectsKey)
      \/ corrupt JSON_parse (localStorage deletedProjectsKey) ->
      App.deletedProjects (loaded JSON_parse localStorage) = []).
Proof.
  unfold loaded, loadEffect, ifStored, parse, missing, corrupt.
  destruct (localStorage projectsKey) as [ text | ] eqn:Hp;
    destruct (localStorage deletedProjectsKey) as [ text' | ] eqn:Hd;
    simpl.
  - destruct (text =? "")%string eqn:He; simpl;
      destruct (text' =? "")%string eqn:He'; simpl;
      try destruct (JSON_parse text) as [ v | ] eqn:Hv; simpl;
      try destruct (JSON_parse text') as [ v' | ] eqn:Hv'; simpl;
      (split; [ eexists; reflexivity | ]);
      (split; intros [ Hm | (t & Ht & Hc) ];
         try reflexivity; try discriminate; congruence).
  - destruct (text =? "")%string eqn:He; simpl;
      try destruct (JSON_parse text) as [ v | ] eqn:Hv; simpl;
      (split; [ eexists; reflexivity | ]);
      (split; intros [ Hm | (t & Ht & Hc) ];
         try reflexivity; try discriminate; congruence).
  - destruct (text' =? "")%string eqn:He'; simpl;
      try destruct (JSON_parse text') as [ v' | ] eqn:Hv'; simpl;
      (split; [ eexists; reflexivity | ]);
      (split; intros [ Hm | (t & Ht & Hc) ];
         try reflexivity; try discriminate; congruence).
  - split; [ eexists; reflexivity | ]. now split.
Qed.

End Loading.

(* ================================================================== *)
(** * The streamed transcript *)

Section Transcript.
Import GeminiService ChatInterface.

Lemma lastMessage_snoc (l : list ChatMessage) (m : ChatMessage) :
  lastMessage (l ++ [m]) = Some m.
Proof. apply last_of_snoc. Qed.

Lemma appendChunk_model (l : list ChatMessage) (t chunk : string) :
  appendChunk chunk (l ++ [ {| role := model; text := t |} ])
  = (l ++ [ {| role := model; text := t ++ chunk |} ])%list.
Proof.
  unfold appendChunk. rewrite lastMessage_snoc. simpl.
  now rewrite removelast_last.
Qed.

Lemma appendChunk_user (l : list ChatMessage) (t chunk : string) :
  appendChunk chunk (l ++ [ {| role := user; text := t |} ])
  = (l ++ [ {| role := user; text := t |} ])%list.
Proof. unfold appendChunk. now rewrite lastMessage_snoc. Qed.

Lemma commit_app (calls calls' : list Call) (st : State) :
  commit (calls ++ calls') st = commit calls' (commit calls st).
Proof. apply fold_left_app. Qed.

(** The fragments land on the trailing model message, each behind the
    text the earlier ones left. *)
Lemma chunks_appended (cs : list string) :
  forall (st : State) (l : list ChatMessage) (t : string),
    messages st = (l ++ [ {| role := model; text := t |} ])%list ->
    messages (commit (flat_map onChunk cs) st)
    = (l ++ [ {| role := model; text := t ++ String.concat "" cs |} ])%list
    /\ isThinking (commit (flat_map onChunk cs) st) = isThinking st.
Proof.
  induction cs as [ | c cs IH ]; intros st l t Hm.
  - simpl. now rewrite append_empty_r.
  - rewrite concat_cons. change (flat_map onChunk (c :: cs))
      with (onChunk c ++ flat_map onChunk cs)%list.
    rewrite commit_app.
    destruct (IH (commit (onChunk c) st) l (t ++ c)%string) as [IHm IHt].
    + simpl. rewrite Hm. apply appendChunk_model.
    + rewrite IHm, IHt, append_assoc. now split.
Qed.

Lemma firstn_chunk_calls (cs : list string) (rest : list Call) (k : nat) :
  (k <= List.length cs)%nat ->
  firstn k (flat_map onChunk cs ++ rest) = flat_map onChunk (firstn k cs).
Proof.
  revert k. induction cs as [ | c cs IH ]; intros [ | k ] Hk; simpl in *.
  - now destruct rest.
  - lia.
  - reflexivity.
  - f_equal. apply IH. lia.
Qed.

Lemma handleSend_unblocked (Chat : Type) (chatRef : option Chat) (st : State)
    (stream : ReplyStream) :
  blocked chatRef st = false -> failure stream = None ->
  handleSend chatRef st stream
  = (handleSend_start st
       ++ flat_map onChunk (chunks stream) ++ handleSend_finally)%list.
Proof.
  intros Hb Hf. unfold handleSend, sendChatMessageStream.
  now rewrite Hb, Hf.
Qed.

(** C5. A send that is not blocked puts the user message on the
    transcript with its first call, then an empty model message; after the
    k-th fragment the transcript ends with one model message holding the
    first k fragments in arrival order; and when the stream ends that
    message holds all of them, concatenated. *)
Theorem streamed_reply_in_arrival_order
    (Chat : Type) (chat : Chat) (st : State) (stream : ReplyStream) :
  blocked (Some chat) st = false -> failure stream = None ->
  let userMessage := {| role := user; text := input st |} in
  let calls := handleSend (Some chat) st stream in
  messages (commit (firstn 1 calls) st) = (messages st ++ [userMessage])%list
  /\ (forall k, (k <= List.length (chunks stream))%nat ->
        messages (commit (firstn (4 + k) calls) st)
        = (messages st
             ++ [ userMessage;
                  {| role := model;
                     text := String.concat "" (firstn k (chunks stream)) |} ])%list)
  /\ messages (commit calls st)
     = (messages st
          ++ [ userMessage;
               {| role := model;
                  text := String.concat "" (chunks stream) |} ])%list
  /\ isThinking (commit calls st) = false.
Proof.
  intros Hb Hf userMessage calls.
  assert (Hcalls : calls = (handleSend_start st
                              ++ flat_map onChunk (chunks stream)
                              ++ handleSend_finally)%list)
    by now apply handleSend_unblocked.
  assert (Hstart : messages (commit (handleSend_start st) st)
                   = ((messages st ++ [userMessage])
                        ++ [ {| role := model; text := "" |} ])%list)
    by reflexivity.
  assert (Hafter : forall cs,
            messages (commit (handleSend_start st ++ flat_map onChunk cs) st)
            = (messages st
                 ++ [ userMessage;
                      {| role := model; text := String.concat "" cs |} ])%list).
  { intros cs. rewrite commit_app.
    destruct (chunks_appended cs (commit (handleSend_start st) st)
                (messages st ++ [userMessage]) "" Hstart) as [Hm _].
    rewrite Hm. now rewrite <- app_assoc. }
  rewrite Hcalls. repeat split.
  - intros k Hk.
    change (4 + k)%nat with (List.length (handleSend_start st) + k)%nat.
    rewrite firstn_app_2, firstn_chunk_calls by exact Hk.
    apply Hafter.
  - rewrite app_assoc, commit_app. simpl. apply Hafter.
  - rewrite app_assoc, commit_app. reflexivity.
Qed.

End Transcript.

(* ================================================================== *)
(** * The page: late fragments of a superseded session *)

Section PageFacts.
Context `{DateAPI}.
Import Page.

Lemma removeNth_Forall (A : Type) (P : A -> Prop) (n : nat) (l : list A) :
  Forall P l -> Forall P (removeNth n l).
Proof.
  revert n. induction l as [ | x l IH ]; intros [ | n ] Hl; simpl;
    try exact Hl.
  - now inversion Hl.
  - inversion Hl; subst. constructor; [ assumption | now apply IH ].
Qed.

(** Committed calls and the render that follows keep the page consistent,
    provided a handler that sets a note collection leaves the CHAT view
    hidden: the rebuild then finds no ChatInterface mounted. *)
Lemma dispatch_consistent (calls : list App.Call) (w : World) :
  consistent w ->
  (existsb App.touchesNotes calls = true ->
   chatShown (App.commit calls (app w)) = false) ->
  consistent (dispatch calls w).
Proof.
  intros [Hnum Hui] Htouch. unfold dispatch, render. simpl.
  destruct (chatShown (App.commit calls (app w))) eqn:Hshown.
  - destruct (existsb App.touchesNotes calls) eqn:Ht;
      [ specialize (Htouch eq_refl); discriminate | ].
    destruct (chatUI w) as [ [inst ui] | ] eqn:Hc.
    + unfold consistent. simpl. rewrite Hc.
      destruct Hui as (Hlt & _ & Hcur). now repeat split.
    + unfold consistent. simpl. repeat split.
      * eapply Forall_impl; [ | exact Hnum ]. simpl. intros s Hs. lia.
      * lia.
      * exact Hshown.
      * eapply Forall_impl; [ | exact Hnum ]. simpl. intros s Hs Heq. lia.
  - destruct (existsb App.touchesNotes calls);
      unfold consistent; simpl; now split.
Qed.

Lemma dispatchUI_consistent (inst : nat) (calls : list ChatInterface.Call)
    (w : World) :
  consistent w -> consistent (dispatchUI inst calls w).
Proof.
  intros Hw. unfold dispatchUI.
  destruct (chatUI w) as [ [mounted ui] | ] eqn:Hc; [ | exact Hw ].
  destruct (mounted =? inst)%nat; [ | exact Hw ].
  destruct Hw as [Hnum Hui]. rewrite Hc in Hui.
  unfold consistent. simpl. now split.
Qed.

Lemma dispatchUI_frame (inst : nat) (calls : list ChatInterface.Call)
    (w : World) :
  streams (dispatchUI inst calls w) = streams w
  /\ generalChatRef (dispatchUI inst calls w) = generalChatRef w
  /\ nextInstance (dispatchUI inst calls w) = nextInstance w
  /\ match chatUI w with
     | Some (mounted, _) =>
         exists ui', chatUI (dispatchUI inst calls w) = Some (mounted, ui')
     | None => chatUI (dispatchUI inst calls w) = None
     end.
Proof.
  unfold dispatchUI.
  destruct (chatUI w) as [ [mounted ui] | ] eqn:Hc.
  - destruct (mounted =? inst)%nat; simpl; repeat split; eauto.
  - now rewrite Hc.
Qed.

Lemma listShown_hides_chat (v : MainView) (st : App.State) :
  listShown v st = true -> v <> CHAT ->
  App.activeProject st = None /\ MainView_eqb (App.mainView st) CHAT = false.
Proof.
  unfold listShown, headerShown. intros Hl Hv.
  destruct (App.activeProject st); [ discriminate | ].
  split; [ reflexivity | ].
  destruct (App.mainView st), v; simpl in *; congruence.
Qed.

Lemma step_consistent (w w' : World) (e : Event) :
  consistent w -> step w e = Some w' -> consistent w'.
Proof.
  intros Hw Hstep. destruct e; simpl in Hstep.
  - destruct (headerShown (app w)); [ | discriminate ].
    injection Hstep as <-. apply dispatch_consistent; [ exact Hw | ].
    discriminate.
  - destruct (nth_error (App.projects (app w)) card) as [ p | ];
      [ | discriminate ].
    destruct (listShown SUMMARIES (app w)); [ | discriminate ].
    injection Hstep as <-. apply dispatch_consistent; [ exact Hw | ].
    discriminate.
  - destruct (headerShown (app w)); [ discriminate | ].
    injection Hstep as <-. apply dispatch_consistent; [ exact Hw | ].
    discriminate.
  - injection Hstep as <-. apply dispatch_consistent; [ exact Hw | ].
    destruct remote as [ r | e ]; [ reflexivity | discriminate ].
  - destruct (listShown SUMMARIES (app w)) eqn:Hl; [ | discriminate ].
    destruct (listed i (App.projects (app w))); [ | discriminate ].
    injection Hstep as <-. apply dispatch_consistent; [ exact Hw | ].
    intros _.
    destruct (@listShown_hides_chat _ _ Hl) as [Ha Hv]; [ discriminate | ].
    unfold App.deleteProject.
    destruct (find (App.hasId i) (App.projects (app w)));
      unfold chatShown; simpl; now rewrite Ha.
  - destruct (listShown RECYCLE_BIN (app w)) eqn:Hl; [ | discriminate ].
    destruct (listed i (App.deletedProjects (app w))); [ | discriminate ].
    injection Hstep as <-. apply dispatch_consistent; [ exact Hw | ].
    intros _.
    destruct (@listShown_hides_chat _ _ Hl) as [Ha Hv]; [ discriminate | ].
    unfold App.restoreProject.
    destruct (find (App.hasId i) (App.deletedProjects (app w)));
      unfold chatShown; simpl; now rewrite Ha.
  - destruct (listShown RECYCLE_BIN (app w)) eqn:Hl; [ | discriminate ].
    destruct (listed i (App.deletedProjects (app w))); [ | discriminate ].
    injection Hstep as <-. apply dispatch_consistent; [ exact Hw | ].
    intros _.
    destruct (@listShown_hides_chat _ _ Hl) as [Ha Hv]; [ discriminate | ].
    unfold chatShown; simpl; now rewrite Ha.
  - destruct (chatUI w) as [ [inst ui] | ]; [ | discriminate ].
    destruct (ChatInterface.isThinking ui); [ discriminate | ].
    injection Hstep as <-. now apply dispatchUI_consistent.
  - destruct (chatUI w) as [ [inst ui] | ] eqn:Hc; [ | discriminate ].
    destruct (generalChatRef w) as [ chat | ] eqn:Hg;
      [ | now injection Hstep as <- ].
    destruct (ChatInterface.blocked (Some chat) ui);
      [ now injection Hstep as <- | ].
    injection Hstep as <-.
    pose proof (dispatchUI_consistent inst (ChatInterface.handleSend_start ui) Hw)
      as [Hnum Hui].
    destruct (dispatchUI_frame inst (ChatInterface.handleSend_start ui) w)
      as (Hs & Hgen & Hnext & Hmounted).
    rewrite Hc in Hmounted. destruct Hmounted as [ui' Hc'].
    rewrite Hc' in Hui. destruct Hui as (Hlt & Hshown & Hcur).
    rewrite Hs in Hnum, Hcur.
    unfold consistent. simpl. rewrite Hc'. repeat split.
    + apply Forall_app. split; [ exact Hnum | ].
      constructor; [ exact Hlt | constructor ].
    + exact Hlt.
    + exact Hshown.
    + apply Forall_app. split; [ exact Hcur | ].
      constructor; [ | constructor ].
      simpl. intros _. now rewrite Hgen.
  - destruct (nth_error (streams w) n) as [ s | ]; [ | discriminate ].
    injection Hstep as <-. now apply dispatchUI_consistent.
  - destruct (nth_error (streams w) n) as [ s | ]; [ | discriminate ].
    injection Hstep as <-.
    set (calls := (_ ++ ChatInterface.handleSend_finally)%list).
    pose proof (dispatchUI_consistent (target s) calls Hw) as [Hnum Hui].
    destruct (dispatchUI_frame (target s) calls w) as (Hs & _).
    rewrite Hs in Hnum, Hui.
    unfold consistent. simpl. split.
    + now apply removeNth_Forall.
    + destruct (chatUI (dispatchUI (target s) calls w)) as [ [inst ui] | ];
        [ | exact Hui ].
      destruct Hui as (Hlt & Hshown & Hcur).
      repeat split; try assumption. now apply removeNth_Forall.
Qed.

Lemma run_consistent (events : list Event) (w w' : World) :
  consistent w -> run events w = Some w' -> consistent w'.
Proof.
  revert w. induction events as [ | e rest IH ]; simpl; intros w Hw Hrun.
  - now injection Hrun as <-.
  - destruct (step w e) as [ w1 | ] eqn:Hstep; [ | discriminate ].
    apply IH with w1; [ | exact Hrun ].
    now apply step_consistent with w e.
Qed.

Section Booted.
Variable JSON_parse : string -> option (list SummaryProject).

Lemma load_keeps_view (localStorage : Storage.Store) :
  chatShown (Storage.loaded JSON_parse localStorage) = false.
Proof.
  unfold Storage.loaded, Storage.loadEffect, Storage.ifStored, Storage.parse.
  destruct (localStorage Storage.projectsKey) as [ text | ];
    destruct (localStorage Storage.deletedProjectsKey) as [ text' | ]; simpl;
    try destruct (text =? "")%string; simpl;
    try destruct (text' =? "")%string; simpl;
    try destruct (JSON_parse text); simpl;
    try destruct (JSON_parse text'); reflexivity.
Qed.

Lemma boot_consistent (localStorage : Storage.Store) :
  consistent (boot JSON_parse localStorage).
Proof.
  unfold boot. apply dispatch_consistent.
  - unfold consistent. simpl. split; [ constructor | reflexivity ].
  - intros _. apply load_keeps_view.
Qed.

(** A fragment that arrives for the mounted ChatInterface is appended to
    the trailing model message whatever session its stream was sent on:
    the callback looks at no session. *)
Lemma fragment_for_mounted_instance_appended
    (w : World) (n : nat) (s : Stream) (chunk : string)
    (ui : ChatInterface.State) (l : list ChatInterface.ChatMessage)
    (t : string) :
  nth_error (streams w) n = Some s -> chatUI w = Some (target s, ui) ->
  ChatInterface.messages ui
    = (l ++ [ {| ChatInterface.role := ChatInterface.model;
                 ChatInterface.text := t |} ])%list ->
  exists w', step w (chunkArrives n chunk) = Some w'
             /\ transcript w'
                = (l ++ [ {| ChatInterface.role := ChatInterface.model;
                             ChatInterface.text := t ++ chunk |} ])%list.
Proof.
  intros Hn Hc Hm. simpl. rewrite Hn. eexists. split; [ reflexivity | ].
  unfold dispatchUI, transcript. rewrite Hc, Nat.eqb_refl. simpl.
  rewrite Hm. apply appendChunk_model.
Qed.

(** C3. On every page that the events lead to from the start of the
    application, a fragment of a stream that was sent on a superseded
    global session is discarded: its arrival leaves the page, and with it
    the visible transcript, as it is. Every change of a note collection
    happens while the global ChatInterface is not rendered or opens the
    detail view in the same commit, so the callback of such a stream
    belongs to an instance that is no longer mounted. *)
Theorem superseded_fragments_discarded
    (localStorage : Storage.Store) (events : list Event) (w : World)
    (n : nat) (s : Stream) (chunk : string) :
  run events (boot JSON_parse localStorage) = Some w ->
  nth_error (streams w) n = Some s -> superseded w s ->
  step w (chunkArrives n chunk) = Some w
  /\ forall w', step w (chunkArrives n chunk) = Some w'
                -> transcript w' = transcript w.
Proof.
  intros Hrun Hn Hsup.
  assert (Hw : consistent w)
    by (eapply run_consistent; [ apply boot_consistent | exact Hrun ]).
  assert (Hstep : step w (chunkArrives n chunk) = Some w).
  { simpl. rewrite Hn. f_equal. unfold dispatchUI.
    destruct (chatUI w) as [ [mounted ui] | ] eqn:Hc; [ | reflexivity ].
    destruct (mounted =? target s)%nat eqn:He; [ | reflexivity ].
    apply Nat.eqb_eq in He. destruct Hw as [_ Hui]. rewrite Hc in Hui.
    destruct Hui as (_ & _ & Hcur). rewrite Forall_forall in Hcur.
    exfalso. apply Hsup. apply Hcur; [ | now symmetry ].
    now apply nth_error_In with n. }
  split; [ exact Hstep | ].
  intros w' Hw'. rewrite Hstep in Hw'. now injection Hw' as <-.
Qed.

End Booted.

End PageFacts.

(* ================================================================== *)
(** * Context, loading, transcript and page on the sample data *)

Section MoreExamples.
Import Sample.

Example context_of_oneTrashed :
  GeminiService.activeProjectsContext (App.projects oneTrashed)
  = ("Here are the user's current summaries:" ++ JS.nl
       ++ "- Title: " ++ JS.dq ++ "Standup" ++ JS.dq
       ++ " (Summary: Daily sync of the team.)")%string
  /\ GeminiService.deletedProjectsContext (App.deletedProjects oneTrashed)
     = ("Here are the items in the user's recycle bin:" ++ JS.nl
          ++ "- Title: " ++ JS.dq ++ "Standup" ++ JS.dq)%string
  /\ GeminiService.activeProjectsContext []
     = "The user currently has no active summaries.".
Proof. vm_compute. repeat split. Qed.

Lemma buildGlobalContext_deterministic_witness :
  Forall2 App.sameFields (App.projects oneTrashed) [ note t2 ]
  /\ Forall2 App.sameFields (App.deletedProjects oneTrashed) [ note t1 ]
  /\ GeminiService.buildGlobalContext
       (App.projects oneTrashed) (App.deletedProjects oneTrashed)
     = GeminiService.buildGlobalContext [ note t2 ] [ note t1 ].
Proof.
  assert (Hp : Forall2 App.sameFields (App.projects oneTrashed) [ note t2 ])
    by (vm_compute; repeat constructor).
  assert (Hd : Forall2 App.sameFields (App.deletedProjects oneTrashed)
                 [ note t1 ])
    by (vm_compute; repeat constructor).
  split; [ exact Hp | split; [ exact Hd | ] ].
  exact (proj1 (buildGlobalContext_deterministic Hp Hd)).
Defined.

Lemma load_degrades_to_empty_witness :
  Storage.corrupt parseEmptyArray (brokenStore Storage.projectsKey)
  /\ Storage.missing (brokenStore Storage.deletedProjectsKey)
  /\ App.projects (Storage.loaded parseEmptyArray brokenStore) = []
  /\ App.deletedProjects (Storage.loaded parseEmptyArray brokenStore) = [].
Proof.
  assert (Hc : Storage.corrupt parseEmptyArray
                 (brokenStore Storage.projectsKey))
    by (exists "[{"; split; vm_compute; reflexivity).
  assert (Hm : Storage.missing (brokenStore Storage.deletedProjectsKey))
    by (vm_compute; reflexivity).
  destruct (load_degrades_to_empty parseEmptyArray brokenStore)
    as (_ & Hprojects & Hdeleted).
  split; [ exact Hc | split; [ exact Hm | split ] ].
  - exact (Hprojects (or_intror Hc)).
  - exact (Hdeleted (or_introl Hm)).
Defined.

Lemma streamed_reply_in_arrival_order_witness :
  ChatInterface.blocked (Some tt) asking = false
  /\ GeminiService.failure reply = None
  /\ ChatInterface.messages
       (ChatInterface.commit
          (ChatInterface.handleSend (Some tt) asking reply) asking)
     = [ {| ChatInterface.role := ChatInterface.user;
            ChatInterface.text := "Say hello" |};
         {| ChatInterface.role := ChatInterface.model;
            ChatInterface.text := "Hello, world" |} ].
Proof.
  assert (Hb : ChatInterface.blocked (Some tt) asking = false)
    by (vm_compute; reflexivity).
  assert (Hf : GeminiService.failure reply = None) by reflexivity.
  split; [ exact Hb | split; [ exact Hf | ] ].
  exact (proj1 (proj2 (proj2
           (streamed_reply_in_arrival_order tt asking reply Hb Hf)))).
Defined.

Example fragment_before_the_rebuild_is_shown :
  option_map Page.transcript (Page.run (firstn 4 lateTrace) started)
  = Some [ {| ChatInterface.role := ChatInterface.user;
              ChatInterface.text := "What was decided?" |};
           {| ChatInterface.role := ChatInterface.model;
              ChatInterface.text := "You " |} ].
Proof. vm_compute. reflexivity. Qed.

Lemma superseded_fragments_discarded_witness :
  Page.run lateTrace started = Some rebuilt
  /\ nth_error (Page.streams rebuilt) 0 = Some staleStream
  /\ Page.superseded rebuilt staleStream
  /\ Page.step rebuilt (Page.chunkArrives 0 "decided to ship.") = Some rebuilt
  /\ Page.transcript rebuilt = [].
Proof.
  assert (Hrun : Page.run lateTrace started = Some rebuilt)
    by (vm_compute; reflexivity).
  assert (Hn : nth_error (Page.streams rebuilt) 0 = Some staleStream)
    by (vm_compute; reflexivity).
  assert (Hs : Page.superseded rebuilt staleStream)
    by (vm_compute; discriminate).
  split; [ exact Hrun | split; [ exact Hn | split; [ exact Hs | split ] ] ].
  - exact (proj1 (superseded_fragments_discarded
                    parseEmptyArray emptyStore lateTrace
                    0 "decided to ship." Hrun Hn Hs)).
  - vm_compute. reflexivity.
Defined.

End MoreExamples.

(* ================================================================== *)
(** * More on the transcript: failure, blocking, and what a fragment keeps *)

Section TranscriptMore.
Import GeminiService ChatInterface.

Lemma messages_snoc_cases (prev : list ChatMessage) :
  prev = [] \/ exists l m, prev = (l ++ [m])%list.
Proof.
  destruct prev as [ | x rest ]; [ now left | right ].
  destruct (exists_last (l := x :: rest)) as (l & m & ->);
    [ discriminate | now exists l, m ].
Qed.

Lemma apologise_model (l : list ChatMessage) (t : string) :
  apologise (l ++ [ {| role := model; text := t |} ])
  = (l ++ [ {| role := model; text := "Sorry, something went wrong." |} ])%list.
Proof.
  unfold apologise. rewrite lastMessage_snoc. simpl.
  now rewrite removelast_last.
Qed.

Lemma chunks_keep_input (cs : list string) (st : State) :
  input (commit (flat_map onChunk cs) st) = input st.
Proof.
  revert st. induction cs as [ | c cs IH ]; intros st; [ reflexivity | ].
  change (flat_map onChunk (c :: cs))
    with (onChunk c ++ flat_map onChunk cs)%list.
  rewrite commit_app, IH. reflexivity.
Qed.

(** X1. When the reply stream of a send ends with an error, after any
    number of fragments, the transcript ends with the user message and one
    model message whose text is the fixed apology: the fragments received
    are gone. The input is empty and the component no longer thinks. *)
Theorem failed_reply_shows_apology
    (Chat : Type) (chat : Chat) (st : State) (stream : ReplyStream)
    (error : string) :
  blocked (Some chat) st = false -> failure stream = Some error ->
  let after := commit (handleSend (Some chat) st stream) st in
  messages after
  = (messages st
       ++ [ {| role := user; text := input st |};
            {| role := model; text := "Sorry, something went wrong." |} ])%list
  /\ input after = "" /\ isThinking after = false.
Proof.
  intros Hb Hf after. unfold after, handleSend, sendChatMessageStream.
  rewrite Hb, Hf.
  assert (Hstart : messages (commit (handleSend_start st) st)
                   = ((messages st ++ [ {| role := user; text := input st |} ])
                        ++ [ {| role := model; text := "" |} ])%list)
    by reflexivity.
  destruct (chunks_appended (chunks stream) (commit (handleSend_start st) st)
              (messages st ++ [ {| role := user; text := input st |} ]) ""
              Hstart) as [Hm _].
  rewrite !commit_app.
  set (received := commit (flat_map onChunk (chunks stream))
                     (commit (handleSend_start st) st)) in *.
  repeat split.
  - simpl. rewrite Hm, apologise_model. now rewrite <- app_assoc.
  - simpl. unfold received. now rewrite chunks_keep_input.
Qed.

(** X2. From the start of an exchange to its end the component accepts no
    other send: after the synchronous part of handleSend and any number of
    fragments, handleSend makes no call, whatever is in the input box and
    whatever session the ref holds. *)
Theorem no_send_while_thinking
    (Chat : Type) (chatRef : option Chat) (st : State) (cs : list string)
    (typed : string) (stream : ReplyStream) :
  let during := commit (handleSend_start st ++ flat_map onChunk cs) st in
  isThinking during = true
  /\ handleSend chatRef (apply during (setInput typed)) stream = [].
Proof.
  intros during.
  assert (Ht : isThinking during = true).
  { unfold during. rewrite commit_app.
    destruct (chunks_appended cs (commit (handleSend_start st) st)
                (messages st ++ [ {| role := user; text := input st |} ]) ""
                eq_refl) as [_ Ht].
    now rewrite Ht. }
  split; [ exact Ht | ].
  unfold handleSend, blocked. simpl. rewrite Ht.
  now rewrite !orb_true_r.
Qed.

(** X3. A fragment adds and removes no message: the transcript keeps its
    length, the roles of its messages and every message but the last. On
    a trailing model message the fragment goes behind the text; when the
    transcript is empty or ends with a user message, it is dropped. *)
Theorem fragment_changes_only_last_text (chunk : string)
    (prev : list ChatMessage) :
  List.length (appendChunk chunk prev) = List.length prev
  /\ map role (appendChunk chunk prev) = map role prev
  /\ removelast (appendChunk chunk prev) = removelast prev
  /\ match lastMessage prev with
     | Some last =>
         match role last with
         | model =>
             lastMessage (appendChunk chunk prev)
             = Some {| role := model; text := text last ++ chunk |}
         | user => appendChunk chunk prev = prev
         end
     | None => appendChunk chunk prev = prev
     end.
Proof.
  destruct (messages_snoc_cases prev) as [ -> | (l & [ [ | ] t ] & ->) ].
  - now repeat split.
  - rewrite lastMessage_snoc, appendChunk_user. now repeat split.
  - rewrite lastMessage_snoc, appendChunk_model.
    rewrite !length_app, !map_app, !removelast_last. simpl.
    repeat split. apply lastMessage_snoc.
Qed.

End TranscriptMore.

(* ================================================================== *)
(** * More facts on lists *)

Lemma NoDup_map_inj (A B : Type) (f : A -> B) (l : list A) (a b : A) :
  NoDup (map f l) -> In a l -> In b l -> f a = f b -> a = b.
Proof.
  induction l as [ | x rest IH ]; simpl; intros Hnd Ha Hb Hf.
  - contradiction.
  - apply NoDup_cons_iff in Hnd. destruct Hnd as [Hx Hrest].
    destruct Ha as [ <- | Ha ], Hb as [ <- | Hb ].
    + reflexivity.
    + exfalso. apply Hx. rewrite Hf. now apply in_map.
    + exfalso. apply Hx. rewrite <- Hf. now apply in_map.
    + now apply IH.
Qed.

(** Two lists in the same strict order with the same elements are one list. *)
Lemma sorted_perm_unique (A : Type) (R : A -> A -> Prop) (l : list A) :
  forall l', StronglySorted R l -> StronglySorted R l' -> Permutation l l' ->
             (forall a b, In a l -> In b l -> R a b -> R b a -> a = b) ->
             l = l'.
Proof.
  induction l as [ | a rest IH ]; intros l' Hs Hs' Hp Hanti.
  - apply Permutation_nil in Hp. now subst.
  - destruct l' as [ | b rest' ];
      [ apply Permutation_sym, Permutation_nil in Hp; discriminate | ].
    apply StronglySorted_inv in Hs. destruct Hs as [Hs Ha].
    apply StronglySorted_inv in Hs'. destruct Hs' as [Hs' Hb].
    assert (Hab : a = b).
    { assert (Hina : In a (b :: rest'))
        by (apply Permutation_in with (a :: rest); [ exact Hp | now left ]).
      assert (Hinb : In b (a :: rest))
        by (apply Permutation_in with (b :: rest');
            [ now symmetry | now left ]).
      destruct Hina as [ Heq | Hina ]; [ now symmetry | ].
      destruct Hinb as [ Heq | Hinb ]; [ now symmetry | ].
      rewrite Forall_forall in Ha, Hb.
      apply Hanti; [ now left | now right | now apply Ha | now apply Hb ]. }
    subst b. f_equal. apply IH; try assumption.
    + now apply Permutation_cons_inv with a.
    + intros x y Hx Hy. apply Hanti; now right.
Qed.

Lemma filter_sorted (A : Type) (R : A -> A -> Prop) (f : A -> bool)
    (l : list A) :
  StronglySorted R l -> StronglySorted R (filter f l).
Proof.
  induction 1 as [ | a l Hs IH Ha ]; simpl; [ constructor | ].
  destruct (f a); [ | exact IH ].
  constructor; [ exact IH | ].
  rewrite Forall_forall in *. intros x Hx. apply Ha.
  apply filter_In in Hx. now destruct Hx.
Qed.

Lemma filter_Forall (A : Type) (P : A -> Prop) (f : A -> bool) (l : list A) :
  Forall P l -> Forall P (filter f l).
Proof.
  rewrite !Forall_forall. intros Hl x Hx. apply Hl.
  apply filter_In in Hx. now destruct Hx.
Qed.

(* ================================================================== *)
(** * More on the repository: compositions and the order of activeNotes *)

Section RepositoryMore.
Context `{DateAPI}.
Import App Runs.

Lemma find_filtered_out (i : string) (l : list SummaryProject) :
  find (hasId i) (filter (hasNotId i) l) = None.
Proof.
  induction l as [ | q rest IH ]; simpl; [ reflexivity | ].
  unfold hasNotId at 1. destruct (hasId i q) eqn:Hq; unfold hasId in Hq;
    rewrite Hq; simpl; [ exact IH | ].
  unfold hasId. now rewrite Hq.
Qed.

Lemma not_found_not_listed (i : string) (l : list SummaryProject) :
  find (hasId i) l = None -> ~ In i (map id l).
Proof.
  intros Hf Hin. apply in_map_iff in Hin. destruct Hin as (p & Hid & Hp).
  pose proof (find_none _ _ Hf p Hp) as Hno.
  apply hasId_true in Hid. congruence.
Qed.

(** X4. softDelete followed by purge of the same id leaves in each
    collection exactly the notes with another id, in their order: the id
    is in neither collection afterwards, whether or not it was in one
    before. *)
Theorem softDelete_then_purge_removes (st : State) (i : string) :
  let st' := run [ softDelete i; purge i ] st in
  projects st' = filter (hasNotId i) (projects st)
  /\ deletedProjects st' = filter (hasNotId i) (deletedProjects st)
  /\ ~ In i (map id (projects st')) /\ ~ In i (map id (deletedProjects st')).
Proof.
  intros st'.
  assert (Hp : projects st' = filter (hasNotId i) (projects st)
               /\ deletedProjects st'
                  = filter (hasNotId i) (deletedProjects st)).
  { unfold st'.
    change (run [ softDelete i; purge i ] st)
      with (step (step st (softDelete i)) (purge i)).
    destruct (step_purge i (step st (softDelete i))) as (-> & ->).
    destruct (find (hasId i) (projects st)) as [ p | ] eqn:Hf.
    - destruct (step_softDelete_found _ _ Hf) as (-> & ->). split.
      + reflexivity.
      + simpl. apply find_id in Hf. destruct Hf as [_ Hid].
        unfold hasNotId at 1. apply hasId_true in Hid. unfold hasId in Hid.
        now rewrite Hid.
    - rewrite (step_softDelete_missing _ _ Hf).
      now rewrite (filter_not_found _ _ Hf). }
  destruct Hp as [Hp Hd]. rewrite Hp, Hd. repeat split.
  - apply not_found_not_listed, find_filtered_out.
  - apply not_found_not_listed, find_filtered_out.
Qed.

(** X5. softDelete, restore and purge are idempotent: the same operation
    with the same id a second time changes nothing. *)
Theorem moves_idempotent (st : State) (i : string) :
  step (step st (softDelete i)) (softDelete i) = step st (softDelete i)
  /\ step (step st (restore i)) (restore i) = step st (restore i)
  /\ step (step st (purge i)) (purge i) = step st (purge i).
Proof.
  repeat split.
  - apply step_softDelete_missing.
    destruct (find (hasId i) (projects st)) as [ p | ] eqn:Hf.
    + destruct (step_softDelete_found _ _ Hf) as (-> & _).
      apply find_filtered_out.
    + now rewrite (step_softDelete_missing _ _ Hf).
  - apply step_restore_missing.
    destruct (find (hasId i) (deletedProjects st)) as [ p | ] eqn:Hf.
    + destruct (step_restore_found _ _ Hf) as (_ & ->).
      apply find_filtered_out.
    + now rewrite (step_restore_missing _ _ Hf).
  - apply step_purge_missing.
    destruct (step_purge i st) as (_ & ->). apply find_filtered_out.
Qed.

Lemma remove_listed (l : list SummaryProject) (p : SummaryProject) :
  NoDup (map id l) -> In p l ->
  Permutation (p :: filter (hasNotId (id p)) l) l.
Proof.
  induction l as [ | q rest IH ]; simpl; intros Hnd Hin.
  - contradiction.
  - apply NoDup_cons_iff in Hnd. destruct Hnd as [Hq Hrest].
    destruct Hin as [ -> | Hin ].
    + unfold hasNotId at 1. rewrite String.eqb_refl. simpl.
      apply perm_skip. rewrite filter_none_id; [ apply Permutation_refl | ].
      intros x Hx. apply hasNotId_true. intros Heq. apply Hq.
      rewrite <- Heq. now apply in_map.
    + destruct (hasNotId (id p) q) eqn:Hne.
      * apply perm_trans with (q :: p :: filter (hasNotId (id p)) rest);
          [ apply perm_swap | apply perm_skip; now apply IH ].
      * exfalso. unfold hasNotId in Hne. apply negb_false_iff in Hne.
        apply String.eqb_eq in Hne. apply Hq. rewrite Hne.
        now apply in_map.
Qed.

Lemma moves_keep_the_rest (st : State) (op : Op) :
  match op with create _ _ _ _ _ _ => False | _ => True end ->
  mainView (step st op) = mainView st
  /\ activeProject (step st op) = activeProject st
  /\ isModalOpen (step st op) = isModalOpen st
  /\ isLoading (step st op) = isLoading st.
Proof.
  destruct op as [ ? ? ? ? ? ? | i | i | i ]; intros Hop;
    [ contradiction | | | ].
  - unfold step, handler, deleteProject.
    destruct (find (hasId i) (projects st)); now repeat split.
  - unfold step, handler, restoreProject.
    destruct (find (hasId i) (deletedProjects st)); now repeat split.
  - now repeat split.
Qed.

Lemma state_ext (a b : State) :
  mainView a = mainView b -> projects a = projects b ->
  deletedProjects a = deletedProjects b ->
  activeProject a = activeProject b -> isModalOpen a = isModalOpen b ->
  isLoading a = isLoading b -> a = b.
Proof. destruct a, b; simpl; intros; now subst. Qed.

(** X6. Round trip of the trash. In a state whose ids are exclusive and
    whose active list is in order with pairwise distinct creation times,
    softDelete of an active note followed by restore of its id gives the
    state back: both collections as they were, in the same order. *)
Theorem softDelete_then_restore_round_trip (st : State) (i : string)
    (p : SummaryProject) :
  find (hasId i) (projects st) = Some p ->
  exclusive st -> sortedByCreatedAtDesc (projects st) ->
  Forall validDate (projects st) -> distinctTimes (projects st) ->
  run [ softDelete i; restore i ] st = st.
Proof.
  intros Hf Hex Hs Hv Hd.
  change (run [ softDelete i; restore i ] st)
    with (step (step st (softDelete i)) (restore i)).
  destruct (find_id _ _ Hf) as [Hin Hid].
  destruct (exclusive_spelled Hex) as (Hndp & _ & Hsep).
  destruct (step_softDelete_found _ _ Hf) as (Hp1 & Hd1).
  assert (Hf2 : find (hasId i) (deletedProjects (step st (softDelete i)))
                = Some p).
  { rewrite Hd1. simpl. apply hasId_true in Hid. now rewrite Hid. }
  destruct (step_restore_found _ _ Hf2) as (Hp2 & Hd2).
  rewrite Hp1 in Hp2. rewrite Hd1 in Hd2.
  assert (Hperm : Permutation (filter (hasNotId i) (projects st) ++ [p])
                    (projects st)).
  { apply perm_trans with (p :: filter (hasNotId i) (projects st));
      [ apply Permutation_sym, Permutation_cons_append | ].
    rewrite <- Hid. now apply remove_listed. }
  destruct (moves_keep_the_rest st (softDelete i) I) as (Hm1 & Ha1 & Ho1 & Hl1).
  destruct (moves_keep_the_rest (step st (softDelete i)) (restore i) I)
    as (Hm2 & Ha2 & Ho2 & Hl2).
  apply state_ext; try congruence.
  - rewrite Hp2. symmetry. apply sorted_perm_unique with (R := notOlder).
    + exact Hs.
    + apply sort_sorted. apply Forall_perm with (projects st);
        [ now symmetry | exact Hv ].
    + apply perm_trans with (filter (hasNotId i) (projects st) ++ [p])%list;
        [ now symmetry | apply sort_perm ].
    + intros a b Ha Hb Hab Hba.
      apply NoDup_map_inj with (f := createdTime) (l := projects st);
        try assumption.
      unfold notOlder in Hab, Hba.
      destruct (createdTime a), (createdTime b); try contradiction.
      f_equal. lia.
  - rewrite Hd2. simpl. unfold hasNotId at 1.
    apply hasId_true in Hid. unfold hasId in Hid. rewrite Hid. simpl.
    apply filter_none_id. intros q Hq. apply hasNotId_true. intros Heq.
    apply (Hsep i).
    + rewrite <- (proj2 (find_id _ _ Hf)). now apply in_map.
    + rewrite <- Heq. now apply in_map.
Qed.

(** What every run keeps: valid dates in both collections and the active
    list in order. *)
Lemma step_keeps_order (st : State) (op : Op) :
  validClocks [op] = true ->
  Forall validDate (projects st) -> Forall validDate (deletedProjects st) ->
  sortedByCreatedAtDesc (projects st) ->
  Forall validDate (projects (step st op))
  /\ Forall validDate (deletedProjects (step st op))
  /\ sortedByCreatedAtDesc (projects (step st op)).
Proof.
  intros Hc Hvp Hvd Hs.
  destruct op as [ base64 mimeType blobUrl [ r | e ] now_id now_createdAt
                 | i | i | i ].
  - destruct (step_create_resolved base64 mimeType blobUrl r
                now_id now_createdAt st) as (-> & -> & _).
    set (p := newProject _ _ _ _ _ _).
    assert (Hp : validDate p).
    { unfold validDate, createdTime, p. simpl. simpl in Hc.
      destruct (getTime (toISOString now_createdAt)); [ | discriminate ].
      discriminate. }
    assert (Hall : Forall validDate (p :: projects st)) by now constructor.
    repeat split; [ | exact Hvd | now apply sort_sorted ].
    apply Forall_perm with (p :: projects st); [ apply sort_perm | exact Hall ].
  - destruct (step_create_rejected base64 mimeType blobUrl e
                now_id now_createdAt st) as (-> & ->). now repeat split.
  - destruct (find (hasId i) (projects st)) as [ p | ] eqn:Hf.
    + destruct (step_softDelete_found _ _ Hf) as (-> & ->). repeat split.
      * now apply filter_Forall.
      * constructor; [ | exact Hvd ].
        rewrite Forall_forall in Hvp. apply Hvp. now apply find_id in Hf.
      * now apply filter_sorted.
    + rewrite (step_softDelete_missing _ _ Hf). now repeat split.
  - destruct (find (hasId i) (deletedProjects st)) as [ p | ] eqn:Hf.
    + destruct (step_restore_found _ _ Hf) as (-> & ->).
      assert (Hall : Forall validDate (projects st ++ [p])).
      { apply Forall_app. split; [ exact Hvp | ].
        constructor; [ | constructor ].
        rewrite Forall_forall in Hvd. apply Hvd. now apply find_id in Hf. }
      repeat split.
      * apply Forall_perm with (projects st ++ [p])%list;
          [ apply sort_perm | exact Hall ].
      * now apply filter_Forall.
      * now apply sort_sorted.
    + rewrite (step_restore_missing _ _ Hf). now repeat split.
  - destruct (step_purge i st) as (-> & ->). repeat split; try assumption.
    now apply filter_Forall.
Qed.

(** X7. Whatever create, softDelete, restore and purge operations run from
    the empty collections, activeNotes is in createdAt descending order
    after them, the clock texts of the created notes being valid dates. *)
Theorem activeNotes_always_in_order (ops : list Op) :
  validClocks ops = true ->
  sortedByCreatedAtDesc (projects (run ops initial)).
Proof.
  intros Hc.
  assert (Hinv : forall st,
            validClocks ops = true ->
            Forall validDate (projects st) ->
            Forall validDate (deletedProjects st) ->
            sortedByCreatedAtDesc (projects st) ->
            sortedByCreatedAtDesc (projects (run ops st))).
  { clear Hc. induction ops as [ | op rest IH ]; intros st Hc Hvp Hvd Hs.
    - exact Hs.
    - simpl in Hc. apply andb_true_iff in Hc. destruct Hc as [Hop Hrest].
      destruct (step_keeps_order st op) as (Hvp' & Hvd' & Hs');
        try assumption.
      + simpl. now rewrite Hop.
      + simpl. now apply IH. }
  apply Hinv; try assumption; constructor.
Qed.

End RepositoryMore.

(* ================================================================== *)
(** * More on the page: what every reachable page satisfies *)

Section PageMore.
Context `{DateAPI}.
Import Page PageInvariants.

Lemma app_dispatch (calls : list App.Call) (w : World) :
  app (dispatch calls w) = App.commit calls (app w).
Proof.
  unfold dispatch, render. simpl.
  destruct (chatShown (App.commit calls (app w)));
    [ destruct (chatUI w) | ];
    destruct (existsb App.touchesNotes calls); reflexivity.
Qed.

Lemma app_dispatchUI (inst : nat) (calls : list ChatInterface.Call)
    (w : World) :
  app (dispatchUI inst calls w) = app w.
Proof.
  unfold dispatchUI. destruct (chatUI w) as [ [mounted ui] | ];
    [ destruct (mounted =? inst)%nat | ]; reflexivity.
Qed.

Lemma commit_untouched (calls : list App.Call) (st : App.State) :
  existsb App.touchesNotes calls = false ->
  App.projects (App.commit calls st) = App.projects st
  /\ App.deletedProjects (App.commit calls st) = App.deletedProjects st.
Proof.
  revert st. induction calls as [ | c rest IH ]; intros st Hno;
    [ now split | ].
  simpl in Hno. apply orb_false_iff in Hno. destruct Hno as [Hc Hrest].
  change (App.commit (c :: rest) st) with (App.commit rest (App.apply st c)).
  destruct (IH (App.apply st c) Hrest) as [-> ->].
  destruct c; simpl in *; try discriminate; now split.
Qed.

Lemma dispatch_contextCurrent (calls : list App.Call) (w : World) :
  contextCurrent w -> contextCurrent (dispatch calls w).
Proof.
  intros (chat & Hg & Hc). unfold contextCurrent.
  rewrite app_dispatch. unfold dispatch.
  destruct (existsb App.touchesNotes calls) eqn:Ht.
  - eexists. split; [ reflexivity | ]. simpl.
    unfold render. simpl.
    destruct (chatShown (App.commit calls (app w)));
      [ destruct (chatUI w) | ]; reflexivity.
  - destruct (commit_untouched calls (app w) Ht) as [-> ->].
    exists chat. split; [ | exact Hc ].
    unfold render. simpl.
    destruct (chatShown (App.commit calls (app w)));
      [ destruct (chatUI w) | ]; exact Hg.
Qed.

Lemma dispatchUI_contextCurrent (inst : nat) (calls : list ChatInterface.Call)
    (w : World) :
  contextCurrent w -> contextCurrent (dispatchUI inst calls w).
Proof.
  intros (chat & Hg & Hc). exists chat.
  destruct (dispatchUI_frame inst calls w) as (_ & -> & _).
  now rewrite app_dispatchUI.
Qed.

Lemma step_contextCurrent (w w' : World) (e : Event) :
  contextCurrent w -> step w e = Some w' -> contextCurrent w'.
Proof.
  intros Hw Hstep. destruct e; simpl in Hstep.
  - destruct (headerShown (app w)); [ | discriminate ].
    injection Hstep as <-. now apply dispatch_contextCurrent.
  - destruct (nth_error (App.projects (app w)) card); [ | discriminate ].
    destruct (listShown SUMMARIES (app w)); [ | discriminate ].
    injection Hstep as <-. now apply dispatch_contextCurrent.
  - destruct (headerShown (app w)); [ discriminate | ].
    injection Hstep as <-. now apply dispatch_contextCurrent.
  - injection Hstep as <-. now apply dispatch_contextCurrent.
  - destruct (listShown SUMMARIES (app w) && listed i (App.projects (app w)));
      [ | discriminate ].
    injection Hstep as <-. now apply dispatch_contextCurrent.
  - destruct (listShown RECYCLE_BIN (app w)
              && listed i (App.deletedProjects (app w))); [ | discriminate ].
    injection Hstep as <-. now apply dispatch_contextCurrent.
  - destruct (listShown RECYCLE_BIN (app w)
              && listed i (App.deletedProjects (app w))); [ | discriminate ].
    injection Hstep as <-. now apply dispatch_contextCurrent.
  - destruct (chatUI w) as [ [inst ui] | ]; [ | discriminate ].
    destruct (ChatInterface.isThinking ui); [ discriminate | ].
    injection Hstep as <-. now apply dispatchUI_contextCurrent.
  - destruct (chatUI w) as [ [inst ui] | ]; [ | discriminate ].
    destruct (generalChatRef w) as [ chat | ] eqn:Hg;
      [ | now injection Hstep as <- ].
    destruct (ChatInterface.blocked (Some chat) ui);
      [ now injection Hstep as <- | ].
    injection Hstep as <-.
    destruct (dispatchUI_contextCurrent inst
                (ChatInterface.handleSend_start ui) Hw) as (c & Hc1 & Hc2).
    exists c. now split.
  - destruct (nth_error (streams w) n); [ | discriminate ].
    injection Hstep as <-. now apply dispatchUI_contextCurrent.
  - destruct (nth_error (streams w) n) as [ s | ]; [ | discriminate ].
    injection Hstep as <-.
    set (calls := (_ ++ ChatInterface.handleSend_finally)%list).
    destruct (dispatchUI_contextCurrent (target s) calls Hw) as (c & Hc1 & Hc2).
    exists c. now split.
Qed.

Lemma step_openListed (w w' : World) (e : Event) :
  openListed w -> step w e = Some w' -> openListed w'.
Proof.
  unfold openListed. intros Hw Hstep. destruct e; simpl in Hstep.
  - destruct (headerShown (app w)) eqn:Hh; [ | discriminate ].
    injection Hstep as <-. rewrite app_dispatch. simpl.
    unfold headerShown in Hh. now destruct (App.activeProject (app w)).
  - destruct (nth_error (App.projects (app w)) card) as [ p | ] eqn:Hp;
      [ | discriminate ].
    destruct (listShown SUMMARIES (app w)); [ | discriminate ].
    injection Hstep as <-. rewrite app_dispatch. simpl.
    now apply nth_error_In with card.
  - destruct (headerShown (app w)); [ discriminate | ].
    injection Hstep as <-. now rewrite app_dispatch.
  - injection Hstep as <-. rewrite app_dispatch.
    destruct remote as [ r | err ]; simpl; [ | exact Hw ].
    apply Permutation_in
      with (App.newProject base64 mimeType blobUrl r now_id now_createdAt
              :: App.projects (app w));
      [ | now left ].
    exact (sort_perm App.byCreatedAtDesc
             (App.newProject base64 mimeType blobUrl r now_id now_createdAt
                :: App.projects (app w))).
  - destruct (listShown SUMMARIES (app w)) eqn:Hl; [ | discriminate ].
    destruct (listed i (App.projects (app w))); [ | discriminate ].
    injection Hstep as <-. rewrite app_dispatch.
    destruct (@listShown_hides_chat _ _ Hl) as [Ha _]; [ discriminate | ].
    unfold App.deleteProject.
    destruct (find (App.hasId i) (App.projects (app w))); simpl;
      now rewrite Ha.
  - destruct (listShown RECYCLE_BIN (app w)) eqn:Hl; [ | discriminate ].
    destruct (listed i (App.deletedProjects (app w))); [ | discriminate ].
    injection Hstep as <-. rewrite app_dispatch.
    destruct (@listShown_hides_chat _ _ Hl) as [Ha _]; [ discriminate | ].
    unfold App.restoreProject.
    destruct (find (App.hasId i) (App.deletedProjects (app w))); simpl;
      now rewrite Ha.
  - destruct (listShown RECYCLE_BIN (app w)) eqn:Hl; [ | discriminate ].
    destruct (listed i (App.deletedProjects (app w))); [ | discriminate ].
    injection Hstep as <-. rewrite app_dispatch.
    destruct (@listShown_hides_chat _ _ Hl) as [Ha _]; [ discriminate | ].
    simpl. now rewrite Ha.
  - destruct (chatUI w) as [ [inst ui] | ]; [ | discriminate ].
    destruct (ChatInterface.isThinking ui); [ discriminate | ].
    injection Hstep as <-. now rewrite app_dispatchUI.
  - destruct (chatUI w) as [ [inst ui] | ]; [ | discriminate ].
    destruct (generalChatRef w) as [ chat | ];
      [ | now injection Hstep as <- ].
    destruct (ChatInterface.blocked (Some chat) ui);
      [ now injection Hstep as <- | ].
    injection Hstep as <-. simpl. now rewrite app_dispatchUI.
  - destruct (nth_error (streams w) n); [ | discriminate ].
    injection Hstep as <-. now rewrite app_dispatchUI.
  - destruct (nth_error (streams w) n) as [ s | ]; [ | discriminate ].
    injection Hstep as <-. simpl. now rewrite app_dispatchUI.
Qed.

Lemma openFor_below (next : nat) (l : list Stream) :
  Forall (fun s => (target s < next)%nat) l -> openFor next l = [].
Proof.
  induction 1 as [ | s l Hs _ IH ]; simpl; [ reflexivity | ].
  destruct (target s =? next)%nat eqn:He; [ | exact IH ].
  apply Nat.eqb_eq in He. lia.
Qed.

Lemma openFor_removeNth (inst n : nat) (l : list Stream) (s : Stream) :
  nth_error l n = Some s ->
  if (target s =? inst)%nat
  then S (List.length (openFor inst (removeNth n l)))
       = List.length (openFor inst l)
  else openFor inst (removeNth n l) = openFor inst l.
Proof.
  revert n. induction l as [ | x rest IH ]; intros [ | n ] Hn; simpl in Hn;
    try discriminate.
  - injection Hn as ->. simpl. now destruct (target s =? inst)%nat.
  - specialize (IH n Hn). simpl.
    destruct (target s =? inst)%nat; destruct (target x =? inst)%nat; simpl;
      congruence.
Qed.

Lemma dispatch_oneStream (calls : list App.Call) (w : World) :
  consistent w -> oneStream w -> oneStream (dispatch calls w).
Proof.
  intros [Hnum _] Hone. unfold oneStream, dispatch, render in *. simpl.
  destruct (chatUI w) as [ [inst ui] | ] eqn:Hc;
    destruct (chatShown (App.commit calls (app w)));
    destruct (existsb App.touchesNotes calls); simpl; rewrite ?Hc;
    try exact Hone; try exact I; now rewrite openFor_below.
Qed.

Lemma dispatchUI_oneStream (inst : nat) (calls : list ChatInterface.Call)
    (w : World) :
  (forall ui, ChatInterface.isThinking (ChatInterface.commit calls ui)
              = ChatInterface.isThinking ui) ->
  oneStream w -> oneStream (dispatchUI inst calls w).
Proof.
  intros Hsame Hone. unfold oneStream, dispatchUI in *.
  destruct (chatUI w) as [ [mounted ui] | ] eqn:Hc; [ | now rewrite Hc ].
  destruct (mounted =? inst)%nat; simpl; [ | now rewrite Hc ].
  now rewrite Hsame.
Qed.

Lemma step_oneStream (w w' : World) (e : Event) :
  consistent w -> oneStream w -> step w e = Some w' -> oneStream w'.
Proof.
  intros Hcons Hw Hstep. destruct e; simpl in Hstep.
  - destruct (headerShown (app w)); [ | discriminate ].
    injection Hstep as <-. now apply dispatch_oneStream.
  - destruct (nth_error (App.projects (app w)) card); [ | discriminate ].
    destruct (listShown SUMMARIES (app w)); [ | discriminate ].
    injection Hstep as <-. now apply dispatch_oneStream.
  - destruct (headerShown (app w)); [ discriminate | ].
    injection Hstep as <-. now apply dispatch_oneStream.
  - injection Hstep as <-. now apply dispatch_oneStream.
  - destruct (listShown SUMMARIES (app w) && listed i (App.projects (app w)));
      [ | discriminate ].
    injection Hstep as <-. now apply dispatch_oneStream.
  - destruct (listShown RECYCLE_BIN (app w)
              && listed i (App.deletedProjects (app w))); [ | discriminate ].
    injection Hstep as <-. now apply dispatch_oneStream.
  - destruct (listShown RECYCLE_BIN (app w)
              && listed i (App.deletedProjects (app w))); [ | discriminate ].
    injection Hstep as <-. now apply dispatch_oneStream.
  - destruct (chatUI w) as [ [inst ui] | ]; [ | discriminate ].
    destruct (ChatInterface.isThinking ui); [ discriminate | ].
    injection Hstep as <-. now apply dispatchUI_oneStream.
  - destruct (chatUI w) as [ [inst ui] | ] eqn:Hc; [ | discriminate ].
    destruct (generalChatRef w) as [ chat | ];
      [ | now injection Hstep as <- ].
    destruct (ChatInterface.blocked (Some chat) ui) eqn:Hb;
      [ now injection Hstep as <- | ].
    injection Hstep as <-.
    unfold oneStream in *. rewrite Hc in Hw.
    unfold dispatchUI. rewrite Hc, Nat.eqb_refl. simpl.
    unfold ChatInterface.blocked in Hb.
    apply orb_false_iff in Hb. destruct Hb as [_ Hb]. rewrite Hb in Hw.
    unfold openFor in *. rewrite filter_app, length_app, Hw. simpl.
    now rewrite Nat.eqb_refl.
  - destruct (nth_error (streams w) n); [ | discriminate ].
    injection Hstep as <-. now apply dispatchUI_oneStream.
  - destruct (nth_error (streams w) n) as [ s | ] eqn:Hn; [ | discriminate ].
    injection Hstep as <-.
    set (calls := (_ ++ ChatInterface.handleSend_finally)%list).
    unfold oneStream in *. simpl. unfold dispatchUI.
    destruct (chatUI w) as [ [mounted ui] | ] eqn:Hc; [ | now rewrite Hc ].
    pose proof (openFor_removeNth mounted n (streams w) Hn) as Hrem.
    rewrite Nat.eqb_sym.
    destruct (target s =? mounted)%nat; simpl.
    + assert (Hfin : ChatInterface.isThinking (ChatInterface.commit calls ui)
                     = false).
      { unfold calls. rewrite commit_app. reflexivity. }
      rewrite Hfin. destruct (ChatInterface.isThinking ui); lia.
    + rewrite Hc. now rewrite Hrem.
Qed.

Section BootedMore.
Variable JSON_parse : string -> option (list SummaryProject).

Lemma reachable_invariants (localStorage : Storage.Store)
    (events : list Event) (w : World) :
  run events (boot JSON_parse localStorage) = Some w ->
  consistent w /\ openListed w /\ oneStream w.
Proof.
  assert (Hboot : consistent (boot JSON_parse localStorage)
                  /\ openListed (boot JSON_parse localStorage)
                  /\ oneStream (boot JSON_parse localStorage)).
  { split; [ apply boot_consistent | ].
    pose proof (load_keeps_view JSON_parse localStorage) as Hview.
    unfold boot. split.
    - unfold openListed. rewrite app_dispatch. simpl.
      unfold chatShown, Storage.loaded in Hview.
      destruct (App.activeProject
                 (App.commit (fst (Storage.loadEffect JSON_parse localStorage))
                    App.initial)) eqn:Ha; [ | exact I ].
      exfalso. revert Ha. clear.
      unfold Storage.loadEffect, Storage.ifStored, Storage.parse.
      destruct (localStorage Storage.projectsKey) as [ text | ];
        destruct (localStorage Storage.deletedProjectsKey) as [ text' | ];
        simpl;
        try destruct (text =? "")%string; simpl;
        try destruct (text' =? "")%string; simpl;
        try destruct (JSON_parse text); simpl;
        try destruct (JSON_parse text'); discriminate.
    - unfold oneStream, dispatch, render. simpl.
      unfold Storage.loaded in Hview. rewrite Hview.
      now destruct (existsb App.touchesNotes
                      (fst (Storage.loadEffect JSON_parse localStorage))). }
  revert Hboot. generalize (boot JSON_parse localStorage).
  induction events as [ | e rest IH ]; simpl; intros w0 Hw0 Hrun.
  - now injection Hrun as <-.
  - destruct (step w0 e) as [ w1 | ] eqn:Hstep; [ | discriminate ].
    destruct Hw0 as (Hc & Ho & Hs).
    apply IH with w1; [ | exact Hrun ]. split; [ | split ].
    + now apply step_consistent with w0 e.
    + now apply step_openListed with w0 e.
    + now apply step_oneStream with w0 e.
Qed.

(** X8. The global session is never stale: on every page that the events
    lead to from the start of the application, the ref holds a session,
    and its system instruction is the context built from the active and
    trashed notes of that page. *)
Theorem global_context_always_current
    (localStorage : Storage.Store) (events : list Event) (w : World) :
  run events (boot JSON_parse localStorage) = Some w ->
  exists chat,
    generalChatRef w = Some chat
    /\ GeminiService.systemInstruction (config chat)
       = GeminiService.buildGlobalContext (App.projects (app w))
           (App.deletedProjects (app w)).
Proof.
  intros Hrun.
  assert (Hw : contextCurrent w).
  { revert Hrun.
    assert (Hboot : contextCurrent (boot JSON_parse localStorage)).
    { unfold boot. apply dispatch_contextCurrent.
      eexists. split; reflexivity. }
    revert Hboot. generalize (boot JSON_parse localStorage).
    induction events as [ | e rest IH ]; simpl; intros w0 Hw0 Hrun.
    - now injection Hrun as <-.
    - destruct (step w0 e) as [ w1 | ] eqn:Hstep; [ | discriminate ].
      apply IH with w1; [ | exact Hrun ].
      now apply step_contextCurrent with w0 e. }
  destruct Hw as (chat & Hg & Hc). exists chat. split; [ exact Hg | ].
  now rewrite Hc.
Qed.

(** X9. The note of the detail view is always one of the active notes:
    on every page that the events lead to from the start of the
    application, the open note, if there is one, is in activeNotes. *)
Theorem open_note_is_active
    (localStorage : Storage.Store) (events : list Event) (w : World)
    (p : SummaryProject) :
  run events (boot JSON_parse localStorage) = Some w ->
  App.activeProject (app w) = Some p -> In p (App.projects (app w)).
Proof.
  intros Hrun Hp.
  destruct (reachable_invariants localStorage events Hrun) as (_ & Ho & _).
  unfold openListed in Ho. now rewrite Hp in Ho.
Qed.

(** X10. One reply at a time: on every page that the events lead to, the
    mounted global ChatInterface has one open stream of its own while it
    is thinking and none otherwise; it never has two. *)
Theorem one_reply_at_a_time
    (localStorage : Storage.Store) (events : list Event) (w : World)
    (inst : nat) (ui : ChatInterface.State) :
  run events (boot JSON_parse localStorage) = Some w ->
  chatUI w = Some (inst, ui) ->
  List.length (openFor inst (streams w))
  = (if ChatInterface.isThinking ui then 1 else 0)%nat.
Proof.
  intros Hrun Hc.
  destruct (reachable_invariants localStorage events Hrun) as (_ & _ & Hs).
  unfold oneStream in Hs. now rewrite Hc in Hs.
Qed.

(** X11. Leaving the CHAT view drops the conversation on the screen: when
    the user selects another view and comes back, the transcript is empty
    and the input box is as at the start, the streams that were open are
    still open, and every fragment that they deliver from then on is
    discarded. *)
Theorem leaving_chat_view_loses_transcript
    (localStorage : Storage.Store) (events : list Event) (w : World)
    (v : MainView) :
  run events (boot JSON_parse localStorage) = Some w ->
  headerShown (app w) = true -> v <> CHAT ->
  exists w',
    run [ selectView v; selectView CHAT ] w = Some w'
    /\ chatUI w' = Some (nextInstance w, ChatInterface.initial)
    /\ transcript w' = []
    /\ streams w' = streams w
    /\ forall n s chunk,
         nth_error (streams w') n = Some s ->
         step w' (chunkArrives n chunk) = Some w'.
Proof.
  intros Hrun Hh Hv.
  destruct (reachable_invariants localStorage events Hrun) as ([Hnum _] & _).
  unfold headerShown in Hh.
  destruct (App.activeProject (app w)) eqn:Ha; [ discriminate | ].
  eexists. split.
  - simpl. unfold headerShown. rewrite Ha.
    rewrite app_dispatch. simpl. rewrite Ha. reflexivity.
  - unfold dispatch, render, chatShown. simpl. rewrite Ha.
    assert (Hno : MainView_eqb v CHAT = false) by now destruct v.
    rewrite Hno. simpl. repeat split.
    intros n s chunk Hn. unfold dispatchUI. simpl. rewrite Hn. simpl.
    destruct (nextInstance w =? target s)%nat eqn:He; [ | reflexivity ].
    apply Nat.eqb_eq in He. rewrite Forall_forall in Hnum.
    apply nth_error_In in Hn. specialize (Hnum s Hn). lia.
Qed.

End BootedMore.

End PageMore.

(* ================================================================== *)
(** * The theme *)

Section ThemeFacts.
Import Theme.

Lemma name_not_empty (t : Theme) : name t <> "".
Proof. destruct t; discriminate. Qed.

Lemma initialTheme_not_empty (localStorage : Storage.Store) :
  initialTheme localStorage <> "".
Proof.
  unfold initialTheme. destruct (localStorage themeKey) as [ stored | ];
    [ | discriminate ].
  simpl. destruct (stored =? "")%string eqn:He; simpl; [ discriminate | ].
  now apply String.eqb_neq.
Qed.

Lemma themeEffect_settled (p : Page) :
  theme p <> "" ->
  let p' := themeEffect p in
  listening p' = Some (theme p')
  /\ dark p' = isDark (theme p') (prefersDark p')
  /\ storage p' themeKey = Some (theme p')
  /\ theme p' <> "".
Proof.
  intros Hne p'. repeat split. exact Hne.
Qed.

Lemma step_settled (p : Page) (e : Event) :
  listening p = Some (theme p)
  /\ dark p = isDark (theme p) (prefersDark p)
  /\ storage p themeKey = Some (theme p) /\ theme p <> "" ->
  listening (step p e) = Some (theme (step p e))
  /\ dark (step p e) = isDark (theme (step p e)) (prefersDark (step p e))
  /\ storage (step p e) themeKey = Some (theme (step p e))
  /\ theme (step p e) <> "".
Proof.
  intros (Hl & Hd & Hs & Hne). destruct e as [ t | prefers ]; simpl.
  - destruct (name t =? theme p)%string; [ now repeat split | ].
    apply (themeEffect_settled
             {| theme := name t; prefersDark := prefersDark p; dark := dark p;
                listening := None; storage := storage p |}).
    apply name_not_empty.
  - repeat split; try assumption. rewrite Hl, Hd. unfold isDark.
    destruct (theme p =? name SYSTEM)%string eqn:Hsys.
    + apply String.eqb_eq in Hsys. rewrite Hsys. reflexivity.
    + simpl in *. now rewrite Hsys.
Qed.

Lemma run_settled (events : list Event) (p : Page) :
  listening p = Some (theme p)
  /\ dark p = isDark (theme p) (prefersDark p)
  /\ storage p themeKey = Some (theme p) /\ theme p <> "" ->
  let p' := run events p in
  listening p' = Some (theme p')
  /\ dark p' = isDark (theme p') (prefersDark p')
  /\ storage p' themeKey = Some (theme p')
  /\ theme p' <> "".
Proof.
  revert p. induction events as [ | e rest IH ]; intros p Hp; [ exact Hp | ].
  apply (IH (step p e)). now apply step_settled.
Qed.

Lemma mount_settled (localStorage : Storage.Store) (prefers before : bool) :
  let p := mount localStorage prefers before in
  listening p = Some (theme p)
  /\ dark p = isDark (theme p) (prefersDark p)
  /\ storage p themeKey = Some (theme p) /\ theme p <> "".
Proof.
  apply (themeEffect_settled
           {| theme := initialTheme localStorage; prefersDark := prefers;
              dark := before; listening := None; storage := localStorage |}).
  apply initialTheme_not_empty.
Qed.

Lemma run_snoc (events : list Event) (e : Event) (p : Page) :
  run (events ++ [e]) p = step (run events p) e.
Proof. unfold run. now rewrite fold_left_app. Qed.

Lemma theme_after_choose (p : Page) (t : Theme) :
  theme (step p (choose t)) = name t.
Proof.
  simpl. destruct (name t =? theme p)%string eqn:He; [ | reflexivity ].
  apply String.eqb_eq in He. now symmetry.
Qed.

Lemma start_renders (localStorage : Storage.Store) (prefers before : bool) :
  start localStorage prefers before
  = Storage.Normal (mount localStorage prefers before)
  <-> themeOption (initialTheme localStorage) <> None.
Proof.
  unfold start. destruct (themeOption (initialTheme localStorage)); split;
    try discriminate; try reflexivity.
  intros Hno. now contradiction Hno.
Qed.

(** X12. The page is dark exactly when the theme says so. When the
    application starts, which it does when the stored theme is missing,
    empty or one of LIGHT, DARK and SYSTEM, then after the start and any
    choices of a theme and any changes of the system preference that the
    mounted application sees, the root element has the class dark if and
    only if the theme is DARK, or it is SYSTEM and the system prefers
    dark. A change of the system preference moves the class in the SYSTEM
    theme only. *)
Theorem dark_class_follows_theme
    (localStorage : Storage.Store) (prefers before : bool)
    (events : list Event) (started : Page) :
  start localStorage prefers before = Storage.Normal started ->
  let p := run events started in
  dark p = isDark (theme p) (prefersDark p)
  /\ forall prefers',
       dark (step p (systemPreference prefers'))
       = if (theme p =? name SYSTEM)%string then prefers' else dark p.
Proof.
  intros Hstart p.
  assert (Hp0 : started = mount localStorage prefers before).
  { unfold start in Hstart.
    destruct (themeOption (initialTheme localStorage));
      [ now injection Hstart as <- | discriminate ]. }
  subst started.
  destruct (@run_settled events (mount localStorage prefers before)
              (mount_settled localStorage prefers before))
    as (Hl & Hd & _).
  fold p in Hl, Hd. split; [ exact Hd | ].
  intros prefers'. simpl. now rewrite Hl.
Qed.

Lemma storage_other_keys (events : list Event) (p : Page) (k : string) :
  k <> themeKey -> storage (run events p) k = storage p k.
Proof.
  intros Hk. revert p. induction events as [ | e rest IH ]; intros p;
    [ reflexivity | ].
  change (run (e :: rest) p) with (run rest (step p e)). rewrite IH.
  destruct e as [ t | prefers ]; simpl; [ | reflexivity ].
  destruct (name t =? theme p)%string; [ reflexivity | ].
  simpl. unfold LocalStorage.setItem.
  apply String.eqb_neq in Hk. now rewrite Hk.
Qed.

(** X13. The theme survives a restart: after the start and any events,
    the theme that the next start reads from the storage is the theme of
    the page, which is the option chosen last; and no other key of the
    storage is written. *)
Theorem theme_survives_restart
    (localStorage : Storage.Store) (prefers before : bool)
    (events : list Event) (t : Theme) :
  let p := run events (mount localStorage prefers before) in
  initialTheme (storage p) = theme p
  /\ initialTheme
       (storage (run (events ++ [ choose t ])
                   (mount localStorage prefers before)))
     = name t
  /\ forall k, k <> themeKey -> storage p k = localStorage k.
Proof.
  intros p.
  assert (Hread : forall q, storage q themeKey = Some (theme q) ->
                            theme q <> "" -> initialTheme (storage q) = theme q).
  { intros q Hs Hne. unfold initialTheme. rewrite Hs. simpl.
    apply String.eqb_neq in Hne. now rewrite Hne. }
  destruct (@run_settled events (mount localStorage prefers before)
              (mount_settled localStorage prefers before))
    as (_ & _ & Hs & Hne).
  fold p in Hs, Hne. split; [ now apply Hread | split ].
  - destruct (@run_settled (events ++ [ choose t ])
                (mount localStorage prefers before)
                (mount_settled localStorage prefers before))
      as (_ & _ & Hs' & Hne').
    rewrite (Hread _ Hs' Hne'), run_snoc. apply theme_after_choose.
  - intros k Hk. unfold p. rewrite storage_other_keys by exact Hk.
    unfold mount, themeEffect, LocalStorage.setItem. simpl.
    apply String.eqb_neq in Hk. now rewrite Hk.
Qed.

End ThemeFacts.

(* ================================================================== *)
(** * The save effects *)

Section PersistenceFacts.
Context `{DateAPI}.
Variable JSON_parse : string -> option (list SummaryProject).
Variable JSON_stringify : list SummaryProject -> string.
Import Persistence.

Lemma commit_keeps_projects (calls : list App.Call) (st : App.State) :
  existsb setsProjects calls = false ->
  App.projects (App.commit calls st) = App.projects st.
Proof.
  revert st. induction calls as [ | c rest IH ]; intros st Hno;
    [ reflexivity | ].
  simpl in Hno. apply orb_false_iff in Hno. destruct Hno as [Hc Hrest].
  change (App.commit (c :: rest) st) with (App.commit rest (App.apply st c)).
  rewrite (IH _ Hrest). destruct c; simpl in *; try discriminate; reflexivity.
Qed.

Lemma commit_keeps_deletedProjects (calls : list App.Call) (st : App.State) :
  existsb setsDeletedProjects calls = false ->
  App.deletedProjects (App.commit calls st) = App.deletedProjects st.
Proof.
  revert st. induction calls as [ | c rest IH ]; intros st Hno;
    [ reflexivity | ].
  simpl in Hno. apply orb_false_iff in Hno. destruct Hno as [Hc Hrest].
  change (App.commit (c :: rest) st) with (App.commit rest (App.apply st c)).
  rewrite (IH _ Hrest). destruct c; simpl in *; try discriminate; reflexivity.
Qed.

Lemma saveEffects_mirrors (calls : list App.Call) (st : App.State)
    (localStorage : Storage.Store) :
  mirrors JSON_stringify (st, localStorage) ->
  mirrors JSON_stringify
    (App.commit calls st,
     saveEffects JSON_stringify calls (App.commit calls st) localStorage).
Proof.
  unfold mirrors, saveEffects, LocalStorage.setItem. simpl.
  intros [Hp Hd].
  destruct (existsb setsProjects calls) eqn:Hsp;
    destruct (existsb setsDeletedProjects calls) eqn:Hsd; simpl;
    rewrite ?(commit_keeps_projects _ _ Hsp),
            ?(commit_keeps_deletedProjects _ _ Hsd);
    now split.
Qed.

Lemma mount_mirrors (localStorage : Storage.Store) :
  mirrors JSON_stringify (mount JSON_parse JSON_stringify localStorage).
Proof.
  unfold mount. apply saveEffects_mirrors.
  unfold mirrors, LocalStorage.setItem. simpl. now split.
Qed.

Lemma run_mirrors (localStorage : Storage.Store) (ops : list App.Op) :
  mirrors JSON_stringify
    (run JSON_stringify ops (mount JSON_parse JSON_stringify localStorage)).
Proof.
  pose proof (mount_mirrors localStorage) as Hm. revert Hm.
  generalize (mount JSON_parse JSON_stringify localStorage).
  induction ops as [ | op rest IH ]; intros s0 Hm; [ exact Hm | ].
  apply (IH (step JSON_stringify s0 op)).
  unfold step. destruct s0 as [st ls]. now apply saveEffects_mirrors.
Qed.

(** X14. Write-through: after the start of the application and after
    every create, softDelete, restore and purge, each of the two storage
    slots holds the serialisation of the collection it belongs to, as the
    collection is then. *)
Theorem storage_mirrors_collections
    (localStorage : Storage.Store) (ops : list App.Op) :
  let s := run JSON_stringify ops
             (mount JSON_parse JSON_stringify localStorage) in
  snd s Storage.projectsKey = Some (JSON_stringify (App.projects (fst s)))
  /\ snd s Storage.deletedProjectsKey
     = Some (JSON_stringify (App.deletedProjects (fst s))).
Proof. intros s. exact (run_mirrors localStorage ops). Qed.

Lemma load_reads_back (localStorage : Storage.Store)
    (ps ds : list SummaryProject) :
  localStorage Storage.projectsKey = Some (JSON_stringify ps) ->
  localStorage Storage.deletedProjectsKey = Some (JSON_stringify ds) ->
  readsBack JSON_parse JSON_stringify ps ->
  readsBack JSON_parse JSON_stringify ds ->
  App.projects (Storage.loaded JSON_parse localStorage) = ps
  /\ App.deletedProjects (Storage.loaded JSON_parse localStorage) = ds.
Proof.
  intros Hp Hd [Hps Htp] [Hds Htd].
  unfold Storage.loaded, Storage.loadEffect, Storage.ifStored, Storage.parse.
  rewrite Hp, Hd, Htp, Htd, Hps, Hds. now split.
Qed.

(** X15. Round trip over a restart: when the application is started
    again on the storage that a run left, it loads the two collections of
    that run, provided JSON.parse reads back the two texts that
    JSON.stringify wrote for them. *)
Theorem collections_survive_restart
    (localStorage : Storage.Store) (ops : list App.Op) :
  let s := run JSON_stringify ops
             (mount JSON_parse JSON_stringify localStorage) in
  readsBack JSON_parse JSON_stringify (App.projects (fst s)) ->
  readsBack JSON_parse JSON_stringify (App.deletedProjects (fst s)) ->
  let restarted := fst (mount JSON_parse JSON_stringify (snd s)) in
  App.projects restarted = App.projects (fst s)
  /\ App.deletedProjects restarted = App.deletedProjects (fst s).
Proof.
  intros s Hp Hd restarted.
  destruct (run_mirrors localStorage ops) as [Hsp Hsd].
  fold s in Hsp, Hsd.
  exact (load_reads_back (snd s) Hsp Hsd Hp Hd).
Qed.


End PersistenceFacts.

(* ================================================================== *)
(** * From a file to a note: the outcomes *)

Section UploadFacts.
Context `{DateAPI}.
Variable JSON_parse_summary : string -> option SummaryResult.
Import App Upload.

(** X17. processAudio alerts exactly when the summarisation fails (the
    service rejects, or JSON.parse throws on its reply), and then both
    collections and the open note are as before: no partial note. When it
    succeeds, the note built from the reply is opened and is in
    activeNotes. In both cases the loader is cleared and the modal
    closed. *)
Theorem processAudio_outcomes
    (base64 mimeType blobUrl : string) (response : Settled string)
    (now_id now_createdAt : Z) (st : State) :
  let remote :=
    generateSummaryFromAudio JSON_parse_summary base64 mimeType response in
  let calls :=
    processAudio base64 mimeType blobUrl remote now_id now_createdAt in
  let st' := commit calls st in
  signalled calls = negb (summarised JSON_parse_summary response)
  /\ isLoading st' = None /\ isModalOpen st' = false
  /\ deletedProjects st' = deletedProjects st
  /\ match remote with
     | Resolved r =>
         let p := newProject base64 mimeType blobUrl r now_id now_createdAt in
         activeProject st' = Some p /\ In p (projects st')
         /\ Permutation (p :: projects st) (projects st')
     | Rejected _ =>
         projects st' = projects st /\ activeProject st' = activeProject st
         /\ filter isSignal calls
            = [ console_error "Error processing audio:";
                alert "Failed to process audio. Please try again." ]
     end.
Proof.
  intros remote calls st'. unfold st', calls, remote.
  unfold generateSummaryFromAudio, summarised.
  destruct response as [ text | error ];
    [ destruct (JSON_parse_summary (JS.trim text)) as [ r | ] | ];
    simpl; repeat split.
  - apply Permutation_in
      with (newProject base64 mimeType blobUrl r now_id now_createdAt
              :: projects st); [ | now left ].
    exact (sort_perm byCreatedAtDesc
             (newProject base64 mimeType blobUrl r now_id now_createdAt
                :: projects st)).
  - exact (sort_perm byCreatedAtDesc
             (newProject base64 mimeType blobUrl r now_id now_createdAt
                :: projects st)).
Qed.

(** X18. An unreadable file leaves the loader on. When reading the file
    fails, handleFileUpload and handleProcessRecording end with the
    loading message they set, alert nothing and change no collection;
    when the file is read, the loader is cleared whatever the
    summarisation does. *)
Theorem loader_cleared_iff_file_read
    (fileType blobUrl : string) (read response : Settled string)
    (now_id now_createdAt : Z) (st : State) :
  let upload :=
    handleFileUpload JSON_parse_summary fileType blobUrl read response
      now_id now_createdAt in
  let recording :=
    handleProcessRecording JSON_parse_summary blobUrl read response
      now_id now_createdAt in
  match read with
  | Resolved _ =>
      isLoading (commit upload st) = None
      /\ isLoading (commit recording st) = None
  | Rejected _ =>
      isLoading (commit upload st) = Some "Uploading and processing file..."
      /\ isLoading (commit recording st) = Some "Processing audio..."
      /\ signalled upload = false /\ signalled recording = false
      /\ projects (commit upload st) = projects st
      /\ deletedProjects (commit upload st) = deletedProjects st
      /\ projects (commit recording st) = projects st
      /\ deletedProjects (commit recording st) = deletedProjects st
  end.
Proof.
  intros upload recording. unfold upload, recording.
  unfold handleFileUpload, handleProcessRecording, generateSummaryFromAudio.
  destruct read as [ audioBase64 | error ]; [ | now repeat split ].
  destruct response as [ text | error ];
    [ destruct (JSON_parse_summary (JS.trim text)) | ]; now split.
Qed.

End UploadFacts.

(* ================================================================== *)
(** * The audio payload *)

Section AudioFacts.
Import Audio.

Lemma split_without (sep : ascii) (s : string) :
  contains sep s = false -> split sep s = [ s ].
Proof.
  induction s as [ | c rest IH ]; simpl; intros Hno; [ reflexivity | ].
  apply orb_false_iff in Hno. destruct Hno as [Hc Hrest].
  rewrite Hc, (IH Hrest). reflexivity.
Qed.

Lemma split_at_first (sep : ascii) (a rest : string) :
  contains sep a = false ->
  split sep (a ++ String sep rest) = a :: split sep rest.
Proof.
  induction a as [ | c a IH ]; simpl; intros Hno.
  - now rewrite Ascii.eqb_refl.
  - apply orb_false_iff in Hno. destruct Hno as [Hc Hrest].
    rewrite Hc, (IH Hrest). reflexivity.
Qed.

(** X19. fileToBase64 resolves with the text between the first and the
    second comma of what the reader gives (to the end when there is one
    comma only), and with undefined when there is no comma. For a data
    URL whose header has no comma that is the base64 payload; a comma in
    the header makes it a piece of the header. *)
Theorem fileToBase64_between_commas (a b rest : string) :
  contains "," a = false -> contains "," b = false ->
  fileToBase64 (Resolved (a ++ "," ++ b)) = Resolved (Some b)
  /\ fileToBase64 (Resolved (a ++ "," ++ b ++ "," ++ rest)) = Resolved (Some b)
  /\ fileToBase64 (Resolved a) = Resolved None.
Proof.
  intros Ha Hb. unfold fileToBase64. repeat split.
  - change (a ++ "," ++ b)%string with (a ++ String "," b)%string.
    now rewrite (@split_at_first _ _ _ Ha), (@split_without _ _ Hb).
  - change (a ++ "," ++ b ++ "," ++ rest)%string
      with (a ++ String "," (b ++ String "," rest))%string.
    now rewrite (@split_at_first _ _ _ Ha), (@split_at_first _ _ _ Hb).
  - now rewrite (@split_without _ _ Ha).
Qed.

Lemma get_nth_error (s : string) (i : nat) :
  String.get i s = nth_error (list_ascii_of_string s) i.
Proof.
  revert i. induction s as [ | c rest IH ]; intros [ | i ]; simpl;
    try reflexivity. apply IH.
Qed.

Lemma length_list_ascii (s : string) :
  List.length (list_ascii_of_string s) = String.length s.
Proof. induction s as [ | c rest IH ]; simpl; [ reflexivity | now rewrite IH ]. Qed.

Lemma assign_at_end (v : option nat) (done rest : list (option (option nat)))
    (hole : option (option nat)) :
  assign (List.length done) v (done ++ hole :: rest)
  = (done ++ Some v :: rest)%list.
Proof.
  induction done as [ | x done IH ]; simpl; [ reflexivity | now rewrite IH ].
Qed.

Lemma firstn_next (A : Type) (l : list A) (i : nat) (x : A) :
  nth_error l i = Some x -> firstn (S i) l = (firstn i l ++ [x])%list.
Proof.
  revert i. induction l as [ | y l IH ]; intros [ | i ] Hn; simpl in *;
    try discriminate.
  - now injection Hn as ->.
  - now rewrite (IH i Hn).
Qed.

(** The loop invariant: after [i] rounds the first [i] slots hold the codes
    of the first [i] characters, and the rest are holes still. *)
Lemma fill_codes (s : string) (rounds : nat) :
  forall i,
    (i + rounds = String.length s)%nat ->
    fill s rounds i
      (map (fun c => Some (Some (nat_of_ascii c)))
         (firstn i (list_ascii_of_string s))
         ++ repeat None rounds)
    = map (fun c => Some (Some (nat_of_ascii c))) (list_ascii_of_string s).
Proof.
  induction rounds as [ | rounds IH ]; intros i Hi; simpl.
  - rewrite app_nil_r, firstn_all2; [ reflexivity | ].
    rewrite length_list_ascii. lia.
  - assert (Hlt : (i < List.length (list_ascii_of_string s))%nat)
      by (rewrite length_list_ascii; lia).
    destruct (nth_error (list_ascii_of_string s) i) as [ c | ] eqn:Hc;
      [ | apply nth_error_None in Hc; lia ].
    unfold charCodeAt. rewrite get_nth_error, Hc.
    pose proof (assign_at_end (Some (nat_of_ascii c))
                  (map (fun c => Some (Some (nat_of_ascii c)))
                     (firstn i (list_ascii_of_string s)))
                  (repeat None rounds) None) as Hassign.
    rewrite length_map, length_firstn, Nat.min_l in Hassign by lia.
    rewrite Hassign.
    specialize (IH (S i)). rewrite (firstn_next _ _ Hc), map_app in IH.
    simpl in IH. rewrite <- app_assoc in IH. simpl in IH.
    apply IH. lia.
Qed.

Lemma blobType_plain (option : string) :
  plainType option = true -> blobType option = option.
Proof.
  unfold plainType, blobType. intros Hp.
  assert (Hr : forallb inTypeRange (list_ascii_of_string option) = true).
  { rewrite forallb_forall in *. intros c Hc.
    specialize (Hp c Hc). now apply andb_true_iff in Hp. }
  rewrite Hr.
  assert (Hm : map toAsciiLower (list_ascii_of_string option)
               = list_ascii_of_string option).
  { rewrite forallb_forall in Hp.
    rewrite <- (map_id (list_ascii_of_string option)) at 2.
    apply map_ext_in. intros c Hc. specialize (Hp c Hc).
    apply andb_true_iff in Hp. destruct Hp as [_ Hu].
    unfold toAsciiLower. apply negb_true_iff in Hu. now rewrite Hu. }
  rewrite Hm. apply string_of_list_ascii_of_string.
Qed.

Lemma map_fixed (A : Type) (f : A -> A) (l : list A) :
  map f l = l -> forall x, In x l -> f x = x.
Proof.
  induction l as [ | a l IH ]; simpl; intros Heq x Hin; [ contradiction | ].
  injection Heq as Ha Hl. destruct Hin as [ <- | Hin ]; [ exact Ha | ].
  now apply IH.
Qed.

Lemma blobType_changes (option : string) :
  plainType option = false -> blobType option <> option.
Proof.
  unfold blobType. intros Hp Heq.
  destruct (forallb inTypeRange (list_ascii_of_string option)) eqn:Hr.
  - apply (f_equal list_ascii_of_string) in Heq.
    rewrite list_ascii_of_string_of_list_ascii in Heq.
    assert (Hall : plainType option = true).
    { unfold plainType. rewrite forallb_forall in *. intros c Hc.
      cbv beta zeta. rewrite (Hr c Hc), andb_true_l.
      pose proof (@map_fixed _ _ _ Heq c Hc) as Hfix. unfold toAsciiLower in Hfix.
      destruct ((65 <=? nat_of_ascii c)%nat && (nat_of_ascii c <=? 90)%nat)
        eqn:Hu; [ | reflexivity ].
      apply andb_true_iff in Hu. destruct Hu as [_ Hle].
      apply Nat.leb_le in Hle.
      apply (f_equal nat_of_ascii) in Hfix.
      rewrite nat_ascii_embedding in Hfix by lia. lia. }
    congruence.
  - subst option. simpl in Hr. discriminate.
Qed.

(** X20. base64ToBlob gives a Blob whose bytes are the characters that
    atob decodes, one byte for each and in their order, and whose type is
    the MIME type as the Blob constructor keeps it: in lower case, and
    empty when it holds a character outside U+0020 to U+007E. A type in
    that range without upper-case letters is kept as it is. base64ToBlob
    throws when atob does. *)
Theorem base64ToBlob_bytes (base64 mimeType : string) :
  base64ToBlob base64 mimeType
  = match atob base64 with
    | Some decoded =>
        Storage.Normal
          {| bytes := map nat_of_ascii (list_ascii_of_string decoded);
             type := blobType mimeType |}
    | None => Storage.Throw "InvalidCharacterError"
    end
  /\ (if plainType mimeType
      then blobType mimeType = mimeType
      else blobType mimeType <> mimeType).
Proof.
  split.
  - unfold base64ToBlob. destruct (atob base64) as [ decoded | ];
      [ | reflexivity ].
    pose proof (fill_codes decoded (String.length decoded) 0 eq_refl) as Hfill.
    simpl in Hfill. rewrite Hfill, map_map. do 2 f_equal.
    apply map_ext. intros c. unfold toUint8.
    apply Nat.mod_small. apply nat_ascii_bounded.
  - destruct (plainType mimeType) eqn:Hp; [ now apply blobType_plain | ].
    intros Heq. exact (blobType_changes Hp Heq).
Qed.

End AudioFacts.

(* ================================================================== *)
(** * Checked lists *)

Section Checkers.
Context `{DateAPI}.
Import App Runs.

Lemma nodupb_NoDup (l : list string) : nodupb l = true -> NoDup l.
Proof.
  induction l as [ | x rest IH ]; simpl; intros Hn; [ constructor | ].
  apply andb_true_iff in Hn. destruct Hn as [Hx Hrest].
  constructor; [ | now apply IH ].
  intros Hin. apply mem_In in Hin. now rewrite Hin in Hx.
Qed.

Lemma laterb_notOlder (a b : SummaryProject) :
  laterb a b = true -> notOlder a b.
Proof.
  unfold laterb, notOlder.
  destruct (createdTime a), (createdTime b); try discriminate.
  intros Hl. apply Z.ltb_lt in Hl. lia.
Qed.

Lemma newestFirst_checked (l : list SummaryProject) :
  newestFirstb l = true ->
  sortedByCreatedAtDesc l /\ Forall validDate l /\ distinctTimes l.
Proof.
  induction l as [ | a rest IH ]; simpl; intros Hn.
  - repeat split; constructor.
  - apply andb_true_iff in Hn. destruct Hn as [Hn Hrest].
    apply andb_true_iff in Hn. destruct Hn as [Hva Hall].
    destruct (IH Hrest) as (Hs & Hv & Hd). rewrite forallb_forall in Hall.
    split; [ | split ].
    + constructor; [ exact Hs | ]. apply Forall_forall. intros b Hb.
      apply laterb_notOlder, Hall, Hb.
    + constructor; [ | exact Hv ]. unfold validDate, validDateb in *.
      destruct (createdTime a); [ discriminate | discriminate ].
    + unfold distinctTimes in *. simpl. constructor; [ | exact Hd ].
      intros Hin. apply in_map_iff in Hin. destruct Hin as (b & Heq & Hb).
      specialize (Hall b Hb). unfold laterb in Hall. rewrite Heq in Hall.
      destruct (createdTime a); [ | discriminate ].
      apply Z.ltb_lt in Hall. lia.
Qed.

End Checkers.

(* ================================================================== *)
(** * The properties on the sample data *)

Section Instances.
Import Sample Scenes.

Lemma failed_reply_shows_apology_witness :
  ChatInterface.blocked (Some tt) asking = false
  /\ GeminiService.failure failing = Some "503 Service Unavailable"
  /\ ChatInterface.messages
       (ChatInterface.commit
          (ChatInterface.handleSend (Some tt) asking failing) asking)
     = [ {| ChatInterface.role := ChatInterface.user;
            ChatInterface.text := "Say hello" |};
         {| ChatInterface.role := ChatInterface.model;
            ChatInterface.text := "Sorry, something went wrong." |} ].
Proof.
  assert (Hb : ChatInterface.blocked (Some tt) asking = false)
    by (vm_compute; reflexivity).
  assert (Hf : GeminiService.failure failing = Some "503 Service Unavailable")
    by reflexivity.
  split; [ exact Hb | split; [ exact Hf | ] ].
  exact (proj1 (@failed_reply_shows_apology unit tt asking failing _ Hb Hf)).
Defined.

Lemma softDelete_then_restore_round_trip_witness :
  find (App.hasId id1) (App.projects twoNotes) = Some (note t1)
  /\ App.exclusive twoNotes
  /\ App.run [ App.softDelete id1; App.restore id1 ] twoNotes = twoNotes.
Proof.
  assert (Hf : find (App.hasId id1) (App.projects twoNotes) = Some (note t1))
    by (vm_compute; reflexivity).
  assert (Hex : App.exclusive twoNotes)
    by (apply nodupb_NoDup; vm_compute; reflexivity).
  assert (Hn : Runs.newestFirstb (App.projects twoNotes) = true)
    by (vm_compute; reflexivity).
  destruct (newestFirst_checked _ Hn) as (Hs & Hv & Hd).
  split; [ exact Hf | split; [ exact Hex | ] ].
  exact (@softDelete_then_restore_round_trip _ twoNotes id1 (note t1)
           Hf Hex Hs Hv Hd).
Defined.

Lemma activeNotes_always_in_order_witness :
  Runs.validClocks busyDay = true
  /\ App.sortedByCreatedAtDesc (App.projects (App.run busyDay App.initial)).
Proof.
  assert (Hc : Runs.validClocks busyDay = true) by (vm_compute; reflexivity).
  split; [ exact Hc | ].
  exact (@activeNotes_always_in_order _ busyDay Hc).
Defined.

Lemma global_context_always_current_witness :
  Page.run lateTrace started = Some rebuilt
  /\ exists chat,
       Page.generalChatRef rebuilt = Some chat
       /\ GeminiService.systemInstruction (Page.config chat)
          = GeminiService.buildGlobalContext (App.projects (Page.app rebuilt))
              (App.deletedProjects (Page.app rebuilt)).
Proof.
  assert (Hrun : Page.run lateTrace started = Some rebuilt)
    by (vm_compute; reflexivity).
  split; [ exact Hrun | ].
  exact (@global_context_always_current _ parseEmptyArray emptyStore
           lateTrace rebuilt Hrun).
Defined.

Lemma open_note_is_active_witness :
  Page.run noteTrace started = Some noteOpen
  /\ App.activeProject (Page.app noteOpen) = Some (note t1)
  /\ In (note t1) (App.projects (Page.app noteOpen)).
Proof.
  assert (Hrun : Page.run noteTrace started = Some noteOpen)
    by (vm_compute; reflexivity).
  assert (Ha : App.activeProject (Page.app noteOpen) = Some (note t1))
    by (vm_compute; reflexivity).
  split; [ exact Hrun | split; [ exact Ha | ] ].
  exact (@open_note_is_active _ parseEmptyArray emptyStore noteTrace
           noteOpen (note t1) Hrun Ha).
Defined.

Lemma one_reply_at_a_time_witness :
  Page.run askTrace started = Some asked
  /\ Page.chatUI asked = Some (0%nat, waiting)
  /\ List.length (PageInvariants.openFor 0 (Page.streams asked))
     = (if ChatInterface.isThinking waiting then 1 else 0)%nat.
Proof.
  assert (Hrun : Page.run askTrace started = Some asked)
    by (vm_compute; reflexivity).
  assert (Hc : Page.chatUI asked = Some (0%nat, waiting))
    by (vm_compute; reflexivity).
  split; [ exact Hrun | split; [ exact Hc | ] ].
  exact (@one_reply_at_a_time _ parseEmptyArray emptyStore askTrace
           asked 0%nat waiting Hrun Hc).
Defined.

Lemma leaving_chat_view_loses_transcript_witness :
  Page.run askTrace started = Some asked
  /\ Page.headerShown (Page.app asked) = true
  /\ SUMMARIES <> CHAT
  /\ exists w',
       Page.run [ Page.selectView SUMMARIES; Page.selectView CHAT ] asked
       = Some w'
       /\ Page.chatUI w'
          = Some (Page.nextInstance asked, ChatInterface.initial)
       /\ Page.transcript w' = []
       /\ Page.streams w' = Page.streams asked
       /\ forall n s chunk,
            nth_error (Page.streams w') n = Some s ->
            Page.step w' (Page.chunkArrives n chunk) = Some w'.
Proof.
  assert (Hrun : Page.run askTrace started = Some asked)
    by (vm_compute; reflexivity).
  assert (Hh : Page.headerShown (Page.app asked) = true)
    by (vm_compute; reflexivity).
  assert (Hv : SUMMARIES <> CHAT) by discriminate.
  split; [ exact Hrun | split; [ exact Hh | split; [ exact Hv | ] ] ].
  exact (@leaving_chat_view_loses_transcript _ parseEmptyArray emptyStore
           askTrace asked SUMMARIES Hrun Hh Hv).
Defined.

Lemma collections_survive_restart_witness :
  Persistence.readsBack parseSample stringify (App.projects (fst night))
  /\ Persistence.readsBack parseSample stringify
       (App.deletedProjects (fst night))
  /\ App.projects (fst (Persistence.mount parseSample stringify (snd night)))
     = App.projects (fst night)
  /\ App.deletedProjects
       (fst (Persistence.mount parseSample stringify (snd night)))
     = App.deletedProjects (fst night).
Proof.
  assert (Hp : Persistence.readsBack parseSample stringify
                 (App.projects (fst night)))
    by (vm_compute; split; reflexivity).
  assert (Hd : Persistence.readsBack parseSample stringify
                 (App.deletedProjects (fst night)))
    by (vm_compute; split; reflexivity).
  split; [ exact Hp | split; [ exact Hd | ] ].
  exact (@collections_survive_restart _ parseSample stringify emptyStore
           evening Hp Hd).
Defined.


(** C4 as stated fails. Two notes of one id are in trashedNotes; restore of
    the id puts the first of them into activeNotes and removes both from
    trashedNotes: the other note, which was present in trashedNotes, is in
    no list afterwards. *)
Lemma restore_loses_same_id_note :
  App.deletedProjects twinsTrashed = [ retroNote t1; note t1 ]
  /\ id (note t1) = id1
  /\ App.projects (App.step twinsTrashed (App.restore id1)) = [ retroNote t1 ]
  /\ App.deletedProjects (App.step twinsTrashed (App.restore id1)) = []
  /\ ~ In (note t1) (App.projects (App.step twinsTrashed (App.restore id1))).
Proof.
  assert (Hp : App.projects (App.step twinsTrashed (App.restore id1))
               = [ retroNote t1 ])
    by (vm_compute; reflexivity).
  split; [ vm_compute; reflexivity | ].
  split; [ vm_compute; reflexivity | ].
  split; [ exact Hp | ].
  split; [ vm_compute; reflexivity | ].
  rewrite Hp. intros [ Heq | [] ].
  apply (f_equal title) in Heq. vm_compute in Heq. discriminate Heq.
Qed.

Lemma dark_class_follows_theme_witness :
  Theme.start darkStore false false
  = Storage.Normal (Theme.mount darkStore false false)
  /\ Theme.dark (Theme.run themeDay (Theme.mount darkStore false false))
     = Theme.isDark
         (Theme.theme (Theme.run themeDay (Theme.mount darkStore false false)))
         (Theme.prefersDark
            (Theme.run themeDay (Theme.mount darkStore false false))).
Proof.
  assert (Hs : Theme.start darkStore false false
               = Storage.Normal (Theme.mount darkStore false false))
    by (vm_compute; reflexivity).
  split; [ exact Hs | ].
  exact (proj1 (@dark_class_follows_theme darkStore false false themeDay
                  (Theme.mount darkStore false false) Hs)).
Defined.

Example foreign_theme_stops_the_start :
  Theme.start purpleStore false true = Storage.Throw "Error"
  /\ Theme.initialTheme purpleStore = "PURPLE"
  /\ Theme.start emptyStore false true
     = Storage.Normal (Theme.mount emptyStore false true)
  /\ Theme.theme (Theme.mount emptyStore false true) = "SYSTEM".
Proof. vm_compute. repeat split. Qed.

Lemma fileToBase64_between_commas_witness :
  Audio.contains "," dataHeader = false
  /\ Audio.contains "," payload = false
  /\ Audio.fileToBase64 (Resolved (dataHeader ++ "," ++ payload))
     = Resolved (Some payload).
Proof.
  assert (Ha : Audio.contains "," dataHeader = false)
    by (vm_compute; reflexivity).
  assert (Hb : Audio.contains "," payload = false)
    by (vm_compute; reflexivity).
  split; [ exact Ha | split; [ exact Hb | ] ].
  exact (proj1 (@fileToBase64_between_commas dataHeader payload "" Ha Hb)).
Defined.

Example recording_plays_back :
  Audio.fileToBase64 (Resolved (dataHeader ++ "," ++ "SGVsbG8="))
  = Resolved (Some "SGVsbG8=")
  /\ Audio.base64ToBlob "SGVsbG8=" "audio/webm"
     = Storage.Normal
         {| Audio.bytes := [ 72; 101; 108; 108; 111 ]%nat;
            Audio.type := "audio/webm" |}
  /\ Audio.base64ToBlob "SGVsbG8" "audio/webm"
     = Storage.Normal
         {| Audio.bytes := [ 72; 101; 108; 108; 111 ]%nat;
            Audio.type := "audio/webm" |}
  /\ Audio.base64ToBlob "SGVsb" "audio/webm"
     = Storage.Throw "InvalidCharacterError"
  /\ Audio.blobType "Audio/WEBM" = "audio/webm"
  /\ Audio.blobType ("audio/" ++ String (ascii_of_nat 233) "") = "".
Proof. vm_compute. repeat split. Qed.

End Instances.
